(** * The GStreamer-to-WebRTC bridge of adsisto (package [gst])

    A shallow embedding of [src/webrtc/gst/gst.go]: the pipeline registry
    (the package-level map [pipelines]), session creation ([CreatePipeline]),
    [Start], [Stop] and the buffer callback [goHandlePipelineBuffer].

    Go code that reads and writes package state, calls into C and may panic
    is embedded in a small state-and-panic monad [Go] over a [World] that
    holds the registry, the C heap blocks handed to the callback and the
    trace of calls that leave the package (native pipeline calls, track
    writes, [fmt.Printf], [C.free]).  The [float32] arithmetic of the sample
    count is IEEE-754 binary32, taken from the Standard Library's
    [SpecFloat] at precision 24 and maximal exponent 128. *)

From Stdlib Require Import ZArith Ascii String List Lia.
From Stdlib Require Import Floats.SpecFloat.
From stdpp Require Import gmap strings list fin_maps relations.

Open Scope string_scope.
Open Scope list_scope.
Open Scope Z_scope.

(** ** Names imported by the package *)

(** The codec names of [github.com/pion/webrtc/v2] (rtpcodec.go).  The
    package only compares them with [==] and in a [switch], which needs them
    pairwise different; no statement below depends on their spelling. *)
Module webrtc.
Definition G722 : string := "G722".
Definition Opus : string := "opus".
Definition VP8 : string := "VP8".
Definition VP9 : string := "VP9".
Definition H264 : string := "H264".
End webrtc.

(** ** Data *)

(** A pointer to a [webrtc.Track]: tracks are only passed around and written to, so a
    track is its pointer identity. *)
Definition Track := nat.

(** A pointer to a [C.GstElement]: the address of a native pipeline, [0] for [NULL]. *)
Definition GstElement := Z.

(** [media.Sample], with the two fields the package sets. *)
Record Sample := { Data : list Byte.byte; Samples : Z }.

(** [type Pipeline struct].  The field [Pipeline] of the source is
    [Pipeline_] here, since the record has that name. *)
Record Pipeline := {
  Pipeline_ : GstElement;
  tracks : list Track;
  id : Z;
  codecName : string
}.

(** What [panic] was called with: a string in [CreatePipeline], the [error]
    of a track write in the callback; and the error of the run time when it
    panics by itself. *)
Inductive PanicValue :=
| PanicString (msg : string)
| PanicError (err : string)
| PanicRuntime (msg : string).

(** Calls that leave the package, in the order they happen. *)
Inductive Event :=
| EvCreatePipeline (pipelineStr : string) (h : GstElement)
| EvStartPipeline (h : GstElement) (pipelineID : Z)
| EvStopPipeline (h : GstElement)
| EvWriteSample (t : Track) (s : Sample) (err : option string)
| EvPrintf (format : string) (arg : Z)
| EvFree (ptr : Z).

(** The state the package runs in: [pipelines] is the package variable
    [var pipelines], a map from [int] to pointers to [Pipeline]; [cmem] holds the heap blocks
    of the C side by address; [trace] is the history of outside calls.
    [pipelinesLock] is not a field: every operation below is one atomic step,
    taken with the lock free, and each releases the lock before it ends or
    panics. *)
Record World := {
  pipelines : gmap Z Pipeline;
  cmem : gmap Z (list Byte.byte);
  trace : list Event
}.

Definition init : World := {| pipelines := ∅; cmem := ∅; trace := [] |}.

(** ** The monad of Go code: state passing, and [panic] ends the run *)

Inductive Result (A : Type) :=
| Return (a : A)
| Panic (v : PanicValue).
Arguments Return {A} a.
Arguments Panic {A} v.

Definition Go (A : Type) : Type := World -> Result A * World.

#[global] Instance Go_ret : MRet Go := fun A a w => (Return a, w).
#[global] Instance Go_bind : MBind Go := fun A B f m w =>
  match m w with
  | (Return a, w') => f a w'
  | (Panic v, w') => (Panic v, w')
  end.

Definition panic {A} (v : PanicValue) : Go A := fun w => (Panic v, w).
Definition get_pipelines : Go (gmap Z Pipeline) := fun w => (Return (pipelines w), w).
Definition set_pipelines (m : gmap Z Pipeline) : Go unit := fun w =>
  (Return tt, {| pipelines := m; cmem := cmem w; trace := trace w |}).

(** The world after the outside calls [evs] were made. *)
Definition log (evs : list Event) (w : World) : World :=
  {| pipelines := pipelines w; cmem := cmem w; trace := trace w ++ evs |}.

Definition emit (e : Event) : Go unit := fun w => (Return tt, log [e] w).

(** ** [float32] and the conversions of the sample count *)

Definition float32 := spec_float.
Definition f32_prec : Z := 24.
Definition f32_emax : Z := 128.

(** [float32(z)] for an integer [z], and an integer constant used at type
    [float32]: rounded to nearest, ties to even. *)
Definition float32_of_int (z : Z) : float32 := binary_normalize f32_prec f32_emax z 0 false.
Definition float32_mul : float32 -> float32 -> float32 := SFmul f32_prec f32_emax.
Definition float32_div : float32 -> float32 -> float32 := SFdiv f32_prec f32_emax.

(** The integer part of a float: the fraction is discarded, towards zero. *)
Definition float32_trunc (x : float32) : option Z :=
  match x with
  | S754_zero _ => Some 0
  | S754_finite s m e =>
      let a := match e with
               | Zneg p => Z.shiftr (Zpos m) (Zpos p)
               | _ => Z.shiftl (Zpos m) e
               end in
      Some (if s then - a else a)
  | S754_infinity _ | S754_nan => None
  end.

(** [C.int(z)] for a Go [int]: the low 32 bits, signed. *)
Definition C_int (z : Z) : Z := (z + 2 ^ 31) mod 2 ^ 32 - 2 ^ 31.

Section Bridge.

(** [gstreamer_send_create_pipeline] of gst.c, which is not among the
    sources: the address it returns for a description ([0] for [NULL]). *)
Variable gstreamer_send_create_pipeline : string -> GstElement.

(** The method [WriteSample] of pion's [webrtc.Track]: given what has happened so far,
    [None] for a [nil] error, [Some e] for the error [e]. *)
Variable WriteSample : list Event -> Track -> Sample -> option string.

(** [uint32(x)] for a float [x] that [uint32] cannot hold (negative, too
    large, infinite or NaN): Go leaves the value to the implementation. *)
Variable uint32_unrepresentable : float32 -> Z.

(** [uint32(x)] for [x] of type [float32]. *)
Definition uint32_of_float32 (x : float32) : Z :=
  match float32_trunc x with
  | Some z => if (0 <=? z) && (z <? 2 ^ 32) then z else uint32_unrepresentable x
  | None => uint32_unrepresentable x
  end.

(** *** Calls into C and into pion *)

Definition C_gstreamer_send_create_pipeline (pipelineStr : string) : Go GstElement :=
  let h := gstreamer_send_create_pipeline pipelineStr in
  emit (EvCreatePipeline pipelineStr h) ;; mret h.

Definition C_gstreamer_send_start_pipeline (h : GstElement) (pipelineID : Z) : Go unit :=
  emit (EvStartPipeline h pipelineID).

Definition C_gstreamer_send_stop_pipeline (h : GstElement) : Go unit :=
  emit (EvStopPipeline h).

(** [C.GoBytes(buffer, n)]: a copy of the first [n] bytes at [buffer].  For
    a negative [n] the run time panics ([gobytes] in the Go run time); a
    [C.int] is never too large for it. *)
Definition C_GoBytes (buffer : Z) (n : Z) : Go (list Byte.byte) := fun w =>
  if n <? 0 then (Panic (PanicRuntime "gobytes: length out of range"), w)
  else (Return (take (Z.to_nat n) (default [] (cmem w !! buffer))), w).

(** [C.free(ptr)]: the block is gone. *)
Definition C_free (ptr : Z) : Go unit := fun w =>
  (Return tt, {| pipelines := pipelines w;
                 cmem := delete ptr (cmem w);
                 trace := trace w ++ [EvFree ptr] |}).

Definition Track_WriteSample (t : Track) (s : Sample) : Go (option string) := fun w =>
  let err := WriteSample (trace w) t s in
  (Return err, log [EvWriteSample t s err] w).

Definition fmt_Printf (format : string) (arg : Z) : Go unit :=
  emit (EvPrintf format arg).

(** *** [CreatePipeline] *)

(** The [switch codecName] of [CreatePipeline]: the description with the
    encoder of the codec spliced in, or the panic of [default]. *)
Definition encoder_switch (codecName pipelineSrc pipelineStr : string) : Go string :=
  if String.eqb codecName webrtc.VP8 then
    mret (pipelineSrc +:+ " ! vp8enc error-resilient=partitions keyframe-max-dist=10 auto-alt-ref=true cpu-used=5 deadline=1 ! " +:+ pipelineStr)
  else if String.eqb codecName webrtc.VP9 then
    mret (pipelineSrc +:+ " ! vp9enc ! " +:+ pipelineStr)
  else if String.eqb codecName webrtc.H264 then
    mret (pipelineSrc +:+ " ! video/x-raw,format=I420 ! x264enc bframes=0 speed-preset=veryfast key-int-max=60 ! video/x-h264,stream-format=byte-stream ! " +:+ pipelineStr)
  else if String.eqb codecName webrtc.Opus then
    mret (pipelineSrc +:+ " ! opusenc ! " +:+ pipelineStr)
  else if String.eqb codecName webrtc.G722 then
    mret (pipelineSrc +:+ " ! avenc_g722 ! " +:+ pipelineStr)
  else
    panic (PanicString ("Unhandled codec " +:+ codecName)).

(** The C copy of the description ([C.CString], freed by the deferred
    [C.free]) lives only inside the call and is left out. *)
Definition CreatePipeline (codecName : string) (tracks : list Track)
    (pipelineSrc : string) : Go Pipeline :=
  pipelineStr ← encoder_switch codecName pipelineSrc "appsink name=appsink" ;
  h ← C_gstreamer_send_create_pipeline pipelineStr ;
  m ← get_pipelines ;
  let pipeline := {| Pipeline_ := h;
                     tracks := tracks;
                     id := Z.of_nat (size m);
                     codecName := codecName |} in
  set_pipelines (<[id pipeline := pipeline]> m) ;;
  mret pipeline.

(** *** [Start] and [Stop] *)

Definition Start (p : Pipeline) : Go unit :=
  C_gstreamer_send_start_pipeline (Pipeline_ p) (C_int (id p)).

Definition Stop (p : Pipeline) : Go unit :=
  C_gstreamer_send_stop_pipeline (Pipeline_ p).

(** *** [goHandlePipelineBuffer] *)

Definition videoClockRate : Z := 90000.
Definition audioClockRate : Z := 48000.

(** [uint32(clockRate * (float32(duration) / 1000000000))] *)
Definition samples_at (clockRate duration : Z) : Z :=
  uint32_of_float32
    (float32_mul (float32_of_int clockRate)
       (float32_div (float32_of_int duration) (float32_of_int 1000000000))).

(** The [var samples uint32] of the callback and the [if] that sets it. *)
Definition samples_for (codecName : string) (duration : Z) : Z :=
  if String.eqb codecName webrtc.Opus
  then samples_at audioClockRate duration
  else samples_at videoClockRate duration.

(** [for _, t := range tracks { if err := t.WriteSample(...); err != nil { panic(err) } }] *)
Fixpoint write_tracks (ts : list Track) (buffer bufferLen samples : Z) : Go unit :=
  match ts with
  | [] => mret tt
  | t :: ts' =>
      data ← C_GoBytes buffer bufferLen ;
      err ← Track_WriteSample t {| Data := data; Samples := samples |} ;
      match err with
      | Some e => panic (PanicError e)
      | None => write_tracks ts' buffer bufferLen samples
      end
  end.

Definition goHandlePipelineBuffer (buffer bufferLen duration pipelineID : Z) : Go unit :=
  m ← get_pipelines ;
  match m !! pipelineID with
  | Some pipeline =>
      write_tracks (tracks pipeline) buffer bufferLen
        (samples_for (codecName pipeline) duration)
  | None =>
      fmt_Printf "discarding buffer, no pipeline with id %d" pipelineID
  end ;;
  C_free buffer.

End Bridge.

(** ** Vocabulary of the statements *)

(** The codec names [CreatePipeline] has a [case] for. *)
Definition supported (codecName : string) : bool :=
  bool_decide (codecName ∈ [webrtc.VP8; webrtc.VP9; webrtc.H264; webrtc.Opus; webrtc.G722]).

(** The events of writing [smp] to each of [ts] in turn, every write
    returning a [nil] error. *)
Definition wrote (smp : Sample) (ts : list Track) : list Event :=
  map (fun t => EvWriteSample t smp None) ts.

(** Every write of [smp] to the tracks [ts], made in turn after the history
    [tr], returns a [nil] error. *)
Definition writes_succeed (WriteSample : list Event -> Track -> Sample -> option string)
    (tr : list Event) (smp : Sample) (ts : list Track) : Prop :=
  forall pre t post, ts = pre ++ t :: post -> WriteSample (tr ++ wrote smp pre) t smp = None.

(** The samples that the calls [evs] handed to track [t], failed writes
    included. *)
Fixpoint writes_to (t : Track) (evs : list Event) : list Sample :=
  match evs with
  | [] => []
  | EvWriteSample t' smp _ :: evs' =>
      if Nat.eqb t' t then smp :: writes_to t evs' else writes_to t evs'
  | _ :: evs' => writes_to t evs'
  end.

(** All samples that the calls [evs] handed to any track. *)
Fixpoint all_writes (evs : list Event) : list (Track * Sample) :=
  match evs with
  | [] => []
  | EvWriteSample t smp _ :: evs' => (t, smp) :: all_writes evs'
  | _ :: evs' => all_writes evs'
  end.

(** How often the calls [evs] released the block at [ptr]. *)
Fixpoint frees (ptr : Z) (evs : list Event) : nat :=
  match evs with
  | [] => 0
  | EvFree ptr' :: evs' => if Z.eqb ptr' ptr then S (frees ptr evs') else frees ptr evs'
  | _ :: evs' => frees ptr evs'
  end.

(** The bytes [C.GoBytes(buffer, bufferLen)] copies in world [w], for a
    length that is not negative. *)
Definition payload (buffer bufferLen : Z) (w : World) : list Byte.byte :=
  take (Z.to_nat bufferLen) (default [] (cmem w !! buffer)).

(** The registry as [CreatePipeline] builds it: the keys are [0 .. len-1]
    and every session is stored under its own [id]. *)
Definition registry_wf (m : gmap Z Pipeline) : Prop :=
  (forall k, is_Some (m !! k) <-> 0 <= k < Z.of_nat (size m)) /\
  (forall k p, m !! k = Some p -> id p = k).

(** Division of [n] by [d > 0] rounded to the nearest integer, ties to the
    even one. *)
Definition round_half_even (n d : Z) : Z :=
  let q := n / d in
  let r := n mod d in
  match 2 * r ?= d with
  | Lt => q
  | Gt => q + 1
  | Eq => if Z.even q then q else q + 1
  end.

(** The sample count in the words of the specification:
    [round(clockRate * durationNanos / 1e9)], in exact arithmetic. *)
Definition spec_samples (clockRate durationNanos : Z) : Z :=
  round_half_even (clockRate * durationNanos) 1000000000.

(** The outside calls made between world [w] and the later world [w']. *)
Definition new_events (w w' : World) : list Event :=
  drop (length (trace w)) (trace w').

Section Runs.

Variable gstreamer_send_create_pipeline : string -> GstElement.
Variable WriteSample : list Event -> Track -> Sample -> option string.
Variable uint32_unrepresentable : float32 -> Z.

(** One call of each request of [reqs] to [CreatePipeline], in order. *)
Fixpoint create_all (reqs : list (string * list Track * string)) : Go (list Pipeline) :=
  match reqs with
  | [] => mret []
  | (codecName, tracks, pipelineSrc) :: reqs' =>
      p ← CreatePipeline gstreamer_send_create_pipeline codecName tracks pipelineSrc ;
      ps ← create_all reqs' ;
      mret (p :: ps)
  end.

(** One operation of the package, or the C side changing its heap (the
    native pipeline allocates the copy it hands to the callback). *)
Inductive step : World -> World -> Prop :=
| step_CreatePipeline codecName tracks pipelineSrc w :
    step w (snd (CreatePipeline gstreamer_send_create_pipeline codecName tracks pipelineSrc w))
| step_Start p w :
    step w (snd (Start p w))
| step_Stop p w :
    step w (snd (Stop p w))
| step_goHandlePipelineBuffer buffer bufferLen duration pipelineID w :
    step w (snd (goHandlePipelineBuffer WriteSample uint32_unrepresentable
                   buffer bufferLen duration pipelineID w))
| step_native cm w :
    step w {| pipelines := pipelines w; cmem := cm; trace := trace w |}.

(** The worlds a run of the package can be in. *)
Definition reachable (w : World) : Prop := rtc step init w.

End Runs.

(** ** A concrete environment, for running the package on examples *)

Module Examples.

(** A native side that builds every pipeline at one address. *)
Definition native_create (_ : string) : GstElement := 4096.

(** Tracks that take every sample. *)
Definition writes_ok (_ : list Event) (_ : Track) (_ : Sample) : option string := None.

(** Track 2 is closed, the others take every sample. *)
Definition track2_closed (_ : list Event) (t : Track) (_ : Sample) : option string :=
  if Nat.eqb t 2 then Some "io: read/write on closed pipe" else None.

Definition unrepresentable (_ : float32) : Z := 0.

Definition chunk : list Byte.byte := [Byte.x61; Byte.x62; Byte.x63].

(** The world after [CreatePipeline(codec, {1, 2}, "videotestsrc")] in the
    first world, the native side holding [chunk] at address 100. *)
Definition session_world (codec : string) : World :=
  let w := snd (CreatePipeline native_create codec [1%nat; 2%nat] "videotestsrc" init) in
  {| pipelines := pipelines w; cmem := {[ 100 := chunk ]}; trace := trace w |}.

End Examples.

(** ** More vocabulary for the bridge *)

(** The addresses of the native pipelines that the calls [evs] created, in
    the order of creation. *)
Fixpoint created (evs : list Event) : list GstElement :=
  match evs with
  | [] => []
  | EvCreatePipeline _ h :: evs' => h :: created evs'
  | _ :: evs' => created evs'
  end.

(** The [float32] value whose conversion to [uint32] is the sample count. *)
Definition sample_float (clockRate duration : Z) : float32 :=
  float32_mul (float32_of_int clockRate)
    (float32_div (float32_of_int duration) (float32_of_int 1000000000)).

(** For a duration of [ms] whole milliseconds, the integer part of the
    [float32] product is a [uint32] and is the exact number of ticks
    [clockRate / 1000 * ms] or one less. *)
Definition exact_or_one_less (clockRate ms : Z) : bool :=
  match float32_trunc (sample_float clockRate (ms * 1000000)) with
  | Some z =>
      (0 <=? z) && (z <? 2 ^ 32) &&
      ((z =? clockRate / 1000 * ms) || (z =? clockRate / 1000 * ms - 1))
  | None => false
  end.

(** * The authentication middleware (package [auth])

    [MiddlewareInit], [parsePublicKey], [parsePrivateKey] and
    [ValidateAuthnRequest].  The middleware is a record that the methods
    update; what they call outside the package (the file system, the PEM
    parsers, the key store, the validator, the JWT library) is a parameter,
    and the calls that matter are recorded in order. *)

Module auth.

(** The package's error values, and [ErrExternal] for an error that comes
    from outside the package. *)
Inductive error :=
| ErrMethodNotImplemented
| ErrKeyNotFound
| ErrInvalidAlg
| ErrHMACAlg
| ErrMissingPubKey
| ErrMissingPrivKey
| ErrInvalidExpDuration
| ErrInvalidToken
| ErrExternal (msg : string).

(** An [interface{}] used for a key: the [nil] interface, or a pointer to a
    key object, a pointer that may itself be nil ([None]). *)
Inductive KeyValue :=
| NilKey
| KeyPtr (p : option Z).

Definition is_nil (k : KeyValue) : bool :=
  match k with NilKey => true | KeyPtr _ => false end.

(** [type KeyInstance struct] *)
Record KeyInstance := { Key : string; AccessLevel : Z }.

(** [KeyInstance{}] *)
Definition zero_KeyInstance : KeyInstance := {| Key := ""; AccessLevel := 0 |}.

Definition KeyInstance_eqb (a b : KeyInstance) : bool :=
  String.eqb (Key a) (Key b) && (AccessLevel a =? AccessLevel b).

(** The implementations of [KeysStoreInterface]: the one of the package and
    those a user brings. *)
Inductive KeysStore :=
| MysqlKeyStore
| UserStore (n : nat).

(** [keysInterfaces]: the one entry ["mysql"]. *)
Definition keysInterfaces : gmap string KeysStore := {[ "mysql" := MysqlKeyStore ]}.

(** [type JWTMiddleware struct].  [Validator] is the validator with the
    tags registered on it so far; the function field [Unauthorised], which
    no method below reads or writes, is left out. *)
Record JWTMiddleware := {
  SigningAlgorithm : string;
  PubKeyPath : string;
  PrivKeyPath : string;
  PubKey : KeyValue;
  PrivKey : KeyValue;
  Interface : string;
  InterfaceConfig : gmap string string;
  AuthorisedKeys : option KeysStore;
  CookieName : string;
  AuthnTimeout : Z;
  SessionTimeout : Z;
  Leeway : Z;
  Validator : option (list string)
}.

Definition set_PubKey (k : KeyValue) (m : JWTMiddleware) : JWTMiddleware :=
  {| SigningAlgorithm := SigningAlgorithm m; PubKeyPath := PubKeyPath m;
     PrivKeyPath := PrivKeyPath m; PubKey := k; PrivKey := PrivKey m;
     Interface := Interface m; InterfaceConfig := InterfaceConfig m;
     AuthorisedKeys := AuthorisedKeys m; CookieName := CookieName m;
     AuthnTimeout := AuthnTimeout m; SessionTimeout := SessionTimeout m;
     Leeway := Leeway m; Validator := Validator m |}.

Definition set_PrivKey (k : KeyValue) (m : JWTMiddleware) : JWTMiddleware :=
  {| SigningAlgorithm := SigningAlgorithm m; PubKeyPath := PubKeyPath m;
     PrivKeyPath := PrivKeyPath m; PubKey := PubKey m; PrivKey := k;
     Interface := Interface m; InterfaceConfig := InterfaceConfig m;
     AuthorisedKeys := AuthorisedKeys m; CookieName := CookieName m;
     AuthnTimeout := AuthnTimeout m; SessionTimeout := SessionTimeout m;
     Leeway := Leeway m; Validator := Validator m |}.

Definition set_AuthorisedKeys (s : option KeysStore) (m : JWTMiddleware) : JWTMiddleware :=
  {| SigningAlgorithm := SigningAlgorithm m; PubKeyPath := PubKeyPath m;
     PrivKeyPath := PrivKeyPath m; PubKey := PubKey m; PrivKey := PrivKey m;
     Interface := Interface m; InterfaceConfig := InterfaceConfig m;
     AuthorisedKeys := s; CookieName := CookieName m;
     AuthnTimeout := AuthnTimeout m; SessionTimeout := SessionTimeout m;
     Leeway := Leeway m; Validator := Validator m |}.

Definition set_Validator (v : option (list string)) (m : JWTMiddleware) : JWTMiddleware :=
  {| SigningAlgorithm := SigningAlgorithm m; PubKeyPath := PubKeyPath m;
     PrivKeyPath := PrivKeyPath m; PubKey := PubKey m; PrivKey := PrivKey m;
     Interface := Interface m; InterfaceConfig := InterfaceConfig m;
     AuthorisedKeys := AuthorisedKeys m; CookieName := CookieName m;
     AuthnTimeout := AuthnTimeout m; SessionTimeout := SessionTimeout m;
     Leeway := Leeway m; Validator := v |}.

(** Calls that leave the package, in the order they happen. *)
Inductive Call :=
| CallReadFile (path : string)
| CallNew (store : KeysStore) (config : gmap string string)
| CallRegisterValidation (tag : string).

(** The run-time panics of the methods: a method called on a nil
    interface, a type assertion on a value of another type. *)
Inductive RuntimePanic :=
| NilInterfaceCall
| FailedTypeAssertion.

(** How a piece of a method ends: it goes on with a value, the method
    returns, or the run time panics. *)
Inductive Flow (R A : Type) :=
| Next (a : A)
| Done (r : R)
| Panics (p : RuntimePanic).
Arguments Next {R A} a.
Arguments Done {R A} r.
Arguments Panics {R A} p.

(** The value of a claim: an [int64], or anything else, the nil interface
    of a missing claim included. *)
Inductive ClaimValue :=
| ClaimInt64 (z : Z)
| ClaimOther.

(** What a call returns: its result, or it panics. *)
Inductive Ran (A : Type) :=
| Ret (a : A)
| RanPanics (p : RuntimePanic).
Arguments Ret {A} a.
Arguments RanPanics {A} p.

(** A piece of a method with results [R]: it reads and updates the
    middleware and adds to the calls made. *)
Definition Method (R A : Type) : Type :=
  JWTMiddleware -> list Call -> Flow R A * JWTMiddleware * list Call.

#[global] Instance Method_ret {R} : MRet (Method R) := fun A a m cs => (Next a, m, cs).
#[global] Instance Method_bind {R} : MBind (Method R) := fun A B f x m cs =>
  match x m cs with
  | (Next a, m', cs') => f a m' cs'
  | (Done r, m', cs') => (Done r, m', cs')
  | (Panics p, m', cs') => (Panics p, m', cs')
  end.

Definition done {R A} (r : R) : Method R A := fun m cs => (Done r, m, cs).
Definition panics {R A} (p : RuntimePanic) : Method R A := fun m cs => (Panics p, m, cs).
Definition self {R} : Method R JWTMiddleware := fun m cs => (Next m, m, cs).
Definition update {R} (f : JWTMiddleware -> JWTMiddleware) : Method R unit :=
  fun m cs => (Next tt, f m, cs).
Definition call {R} (c : Call) : Method R unit := fun m cs => (Next tt, m, cs ++ [c]).

(** The algorithm names with a public and a private key, and the names
    that the [switch] of [MiddlewareInit] lets pass. *)
Definition asymmetric : list string :=
  ["RS256"; "RS384"; "RS512"; "ES256"; "ES384"; "ES512"].
Definition passes_switch : list string := asymmetric ++ ["HS256"; "HS384"].

(** The paths of the files that the calls [cs] read. *)
Fixpoint files_read (cs : list Call) : list string :=
  match cs with
  | [] => []
  | CallReadFile path :: cs' => path :: files_read cs'
  | _ :: cs' => files_read cs'
  end.

Section Middleware.

(** [strings.ToUpper] *)
Variable ToUpper : string -> string.

(** [ioutil.ReadFile]: the contents, or [None] for an error. *)
Variable ReadFile : string -> option (list Byte.byte).

(** The PEM parsers of [jose/crypto]: the pointer they return and the
    message of their error, if any. *)
Variable ParseRSAPublicKeyFromPEM : list Byte.byte -> option Z * option string.
Variable ParseECPublicKeyFromPEM : list Byte.byte -> option Z * option string.
Variable ParseRSAPrivateKeyFromPEM : list Byte.byte -> option Z * option string.
Variable ParseECPrivateKeyFromPEM : list Byte.byte -> option Z * option string.

(** [RegisterValidation] of the validator, for a tag: the message of its
    error, if any. *)
Variable RegisterValidation : string -> option string.

(** [parsePublicKey].  In Go a [case] with an empty body leaves the
    [switch], nothing falls through to the next case: only the last case of
    each group reaches its [return], the others go on to the [return] after
    the [switch]. *)
Definition parsePublicKey (m : JWTMiddleware) (k : list Byte.byte) : KeyValue * option error :=
  let alg := ToUpper (SigningAlgorithm m) in
  if String.eqb alg "RS256" then (NilKey, Some ErrInvalidAlg)
  else if String.eqb alg "RS384" then (NilKey, Some ErrInvalidAlg)
  else if String.eqb alg "RS512" then
    let '(p, err) := ParseRSAPublicKeyFromPEM k in (KeyPtr p, option_map ErrExternal err)
  else if String.eqb alg "ES256" then (NilKey, Some ErrInvalidAlg)
  else if String.eqb alg "ES384" then (NilKey, Some ErrInvalidAlg)
  else if String.eqb alg "ES512" then
    let '(p, err) := ParseECPublicKeyFromPEM k in (KeyPtr p, option_map ErrExternal err)
  else (NilKey, Some ErrInvalidAlg).

(** [parsePrivateKey] *)
Definition parsePrivateKey (m : JWTMiddleware) (k : list Byte.byte) : KeyValue * option error :=
  let alg := ToUpper (SigningAlgorithm m) in
  if String.eqb alg "RS256" then (NilKey, Some ErrInvalidAlg)
  else if String.eqb alg "RS384" then (NilKey, Some ErrInvalidAlg)
  else if String.eqb alg "RS512" then
    let '(p, err) := ParseRSAPrivateKeyFromPEM k in (KeyPtr p, option_map ErrExternal err)
  else if String.eqb alg "ES256" then (NilKey, Some ErrInvalidAlg)
  else if String.eqb alg "ES384" then (NilKey, Some ErrInvalidAlg)
  else if String.eqb alg "ES512" then
    let '(p, err) := ParseECPrivateKeyFromPEM k in (KeyPtr p, option_map ErrExternal err)
  else (NilKey, Some ErrInvalidAlg).

(** The [switch] of [MiddlewareInit] on the upper-cased algorithm: the
    cases with an empty body and the one with [break] leave the switch, the
    last HMAC case returns [ErrHMACAlg], [default] returns
    [ErrInvalidAlg]. *)
Definition signing_switch (alg : string) : Method (option error) unit :=
  if String.eqb alg "RS256" then mret tt
  else if String.eqb alg "RS384" then mret tt
  else if String.eqb alg "RS512" then mret tt
  else if String.eqb alg "ES256" then mret tt
  else if String.eqb alg "ES384" then mret tt
  else if String.eqb alg "ES512" then mret tt
  else if String.eqb alg "HS256" then mret tt
  else if String.eqb alg "HS384" then mret tt
  else if String.eqb alg "HS512" then done (Some ErrHMACAlg)
  else done (Some ErrInvalidAlg).

(** [if m.PubKeyPath != "" && m.PubKey == nil { ... }] *)
Definition load_PubKey : Method (option error) unit :=
  m ← self ;
  if negb (String.eqb (PubKeyPath m) "") && is_nil (PubKey m) then
    call (CallReadFile (PubKeyPath m)) ;;
    match ReadFile (PubKeyPath m) with
    | None => done (Some ErrMissingPubKey)
    | Some keyData =>
        match parsePublicKey m keyData with
        | (_, Some _) => done (Some ErrMissingPubKey)
        | (key, None) => update (set_PubKey key)
        end
    end
  else mret tt.

(** [if m.PrivKeyPath != "" && m.PrivKey == nil { ... }] *)
Definition load_PrivKey : Method (option error) unit :=
  m ← self ;
  if negb (String.eqb (PrivKeyPath m) "") && is_nil (PrivKey m) then
    call (CallReadFile (PrivKeyPath m)) ;;
    match ReadFile (PrivKeyPath m) with
    | None => done (Some ErrMissingPrivKey)
    | Some keyData =>
        match parsePrivateKey m keyData with
        | (_, Some _) => done (Some ErrMissingPrivKey)
        | (key, None) => update (set_PrivKey key)
        end
    end
  else mret tt.

(** [if m.AuthorisedKeys == nil { ... }]: the store of the map, the nil
    interface for a name that is not a key of the map, and [New] called on
    it. *)
Definition load_AuthorisedKeys : Method (option error) unit :=
  m ← self ;
  match AuthorisedKeys m with
  | Some _ => mret tt
  | None =>
      update (set_AuthorisedKeys (keysInterfaces !! Interface m)) ;;
      match keysInterfaces !! Interface m with
      | Some store => call (CallNew store (InterfaceConfig m))
      | None => panics NilInterfaceCall
      end
  end.

(** [if err := m.Validator.RegisterValidation(tag, ...); err != nil { return err }] *)
Definition register (tag : string) : Method (option error) unit :=
  call (CallRegisterValidation tag) ;;
  match RegisterValidation tag with
  | Some err => done (Some (ErrExternal err))
  | None =>
      update (fun m => set_Validator (option_map (fun tags => tags ++ [tag]) (Validator m)) m)
  end.

(** [MiddlewareInit] *)
Definition MiddlewareInit : Method (option error) unit :=
  m ← self ;
  signing_switch (ToUpper (SigningAlgorithm m)) ;;
  load_PubKey ;;
  m ← self ;
  (if is_nil (PubKey m) then done (Some ErrMissingPubKey) else mret tt) ;;
  load_PrivKey ;;
  m ← self ;
  (if is_nil (PrivKey m) then done (Some ErrMissingPrivKey) else mret tt) ;;
  load_AuthorisedKeys ;;
  update (set_Validator (Some [])) ;;
  register "uniqueIdentity" ;;
  register "existsIdentity" ;;
  register "publicKey" ;;
  done None.

(** *** [ValidateAuthnRequest] *)

(** Tokens and issuers ([interface{}] values) of the JWT library. *)
Variable Token : Type.
Variable Issuer : Type.

(** [time.Time] with [time.Unix(sec, 0)], [Add] and [Before]. *)
Variable Time : Type.
Variable time_Unix : Z -> Time.
Variable Time_Add : Time -> Z -> Time.
Variable Time_Before : Time -> Time -> bool.

(** [jws.ParseJWT]: a token, or [None] for an error. *)
Variable ParseJWT : string -> option Token.

(** [token.Claims().Get("iss")] *)
Variable issuer : Token -> Issuer.

(** [Get] of a key store, for an issuer. *)
Variable Get : KeysStore -> Issuer -> KeyInstance * option error.

(** [token.Validate(key, method, validate)] for a token, the key, the name
    of the signing algorithm, and the leeway and the function that the
    validator is built from: the error, unless the call panics. *)
Variable Validate :
  Token -> string -> string -> Z -> ((string -> ClaimValue) -> Ran (option error)) ->
  Ran (option error).

(** The function literal given to [jws.NewValidator]: the two type
    assertions to [int64], then the check that the token does not expire
    later than the timeout after it was issued. *)
Definition authn_check (m : JWTMiddleware) (claims : string -> ClaimValue)
    : Ran (option error) :=
  match claims "exp" with
  | ClaimOther => RanPanics FailedTypeAssertion
  | ClaimInt64 e =>
      let exp := time_Unix e in
      match claims "iat" with
      | ClaimOther => RanPanics FailedTypeAssertion
      | ClaimInt64 i =>
          let iat := time_Unix i in
          let expectedExp := Time_Add iat (AuthnTimeout m) in
          if Time_Before expectedExp exp then Ret (Some ErrInvalidExpDuration)
          else Ret None
      end
  end.

(** [ValidateAuthnRequest]; the log lines are left out. *)
Definition ValidateAuthnRequest (t : string)
    : Method (option KeyInstance * option error) unit :=
  m ← self ;
  match ParseJWT t with
  | None => done (None, Some ErrInvalidToken)
  | Some token =>
      match AuthorisedKeys m with
      | None => panics NilInterfaceCall
      | Some store =>
          let '(key, err) := Get store (issuer token) in
          if KeyInstance_eqb key zero_KeyInstance then done (None, None)
          else
            match err with
            | Some e => done (None, Some e)
            | None =>
                match Validate token (Key key) (SigningAlgorithm m) (Leeway m)
                        (authn_check m) with
                | RanPanics p => panics p
                | Ret (Some _) => done (None, None)
                | Ret None => done (Some key, None)
                end
            end
      end
  end.

End Middleware.

End auth.

(** * The keystroke stream (package [hid]): the command for a report

    The part of the loop of [WebsocketHandler] that turns the bytes of a
    HID report into the command written to the device file.  [ParseMessage]
    and [GenerateHID] are not among the sources; the bytes are what
    [GenerateHID] returned. *)

Module hid.

(** [hextable] of [encoding/hex] *)
Definition hextable : string := "0123456789abcdef".

Definition hex_digit (n : nat) : Ascii.ascii :=
  match String.get n hextable with
  | Some c => c
  | None => "0"%char
  end.

(** [hex.EncodeToString]: for every byte the digit of its high four bits,
    then the digit of its low four bits. *)
Fixpoint hex_EncodeToString (src : list Byte.byte) : string :=
  match src with
  | [] => ""
  | b :: src' =>
      String (hex_digit (Byte.to_nat b / 16))
        (String (hex_digit (Byte.to_nat b mod 16)) (hex_EncodeToString src'))
  end.

(** [strings.Replace(s, old, new, -1)] for a non-empty [old]: from left to
    right, every occurrence of [old] that does not overlap an earlier one is
    replaced by [new].  [skip] counts the characters of [s] that still
    belong to the occurrence just replaced. *)
Fixpoint Replace_from (skip : nat) (s old new : string) : string :=
  match s with
  | EmptyString => EmptyString
  | String c s' =>
      match skip with
      | S k => Replace_from k s' old new
      | O =>
          if String.prefix old s
          then new +:+ Replace_from (String.length old - 1) s' old new
          else String c (Replace_from 0 s' old new)
      end
  end.

Definition strings_Replace (s old new : string) : string := Replace_from 0 s old new.

Definition double_quote : string := String "034"%char EmptyString.

(** [fmt.Sprintf] with the format of the handler, whose text is
    [printf], a quoted [%b], the value between single quotes, and the pipe
    into [hid-ops keyboard]. *)
Definition Sprintf_command (v : string) : string :=
  "printf " +:+ double_quote +:+ "%b" +:+ double_quote +:+ " '" +:+ v +:+ "' | hid-ops keyboard".

(** The command of one keystroke, from the bytes of its report. *)
Definition command (bytes : list Byte.byte) : string :=
  let bytesEncoded := hex_EncodeToString bytes in
  let bytesEncoded := strings_Replace bytesEncoded "0x" "\x" in
  Sprintf_command bytesEncoded.

End hid.

(** * The console component (Console.js)

    The state of the component, its three handlers and what [render] shows
    of the state.  [setState] is taken to merge at once. *)

Module Console.

Record State := { connected : bool; ws : bool }.

(** The fields of a keyboard event that [handleKeys] reads. *)
Record KeyboardEvent := {
  key : string;
  shiftKey : bool;
  ctrlKey : bool;
  altKey : bool;
  metaKey : bool
}.

(** The object [message] of [handleKeys]; its field [key] is [key_]. *)
Record Message := {
  key_ : string;
  shift : bool;
  ctrl : bool;
  alt : bool;
  meta : bool
}.

Inductive Effect :=
| alert (text : string)
| sendMessage (data : string).

Definition prohibitedKeys : list string := ["Copy"; "Cut"; "Paste"; "Undo"; "Redo"].

(** The state set in the constructor. *)
Definition constructed : State := {| connected := false; ws := false |}.

Definition handleOpen (st : State) : State := {| connected := connected st; ws := true |}.

Definition handleClose (st : State) : State := {| connected := connected st; ws := false |}.

(** [Array.prototype.includes] on strings *)
Definition includes (l : list string) (x : string) : bool := existsb (String.eqb x) l.

Section Handlers.

(** [JSON.stringify] on a message object. *)
Variable JSON_stringify : Message -> string.

Definition handleKeys (e : KeyboardEvent) (st : State) : list Effect :=
  if includes prohibitedKeys (key e) then
    [alert "Special keys are not currently supported!"]
  else if negb (ws st) then
    [alert "Connection to remote Websocket server in progress... Please try again."]
  else
    let message := {| key_ := key e; shift := shiftKey e; ctrl := ctrlKey e;
                      alt := altKey e; meta := metaKey e |} in
    [sendMessage (JSON_stringify message)].

(** What reaches the component: the socket opens, the socket closes, a key
    goes down. *)
Inductive Input :=
| Open
| Close
| Keydown (e : KeyboardEvent).

(** The component taking the inputs in turn: its state at the end and the
    effects in order. *)
Fixpoint run (inputs : list Input) (st : State) : State * list Effect :=
  match inputs with
  | [] => (st, [])
  | Open :: rest => run rest (handleOpen st)
  | Close :: rest => run rest (handleClose st)
  | Keydown e :: rest =>
      let effects := handleKeys e st in
      let '(st', effects') := run rest st in
      (st', effects ++ effects')
  end.

(** The number of key events among the inputs. *)
Definition keydowns (inputs : list Input) : nat :=
  length (List.filter (fun i => match i with Keydown _ => true | _ => false end) inputs).

(** [render]: the overlay is part of the page unless [state.connected]. *)
Definition overlay_shown (st : State) : bool := negb (connected st).

End Handlers.

End Console.

(** ** A concrete environment for the middleware and the console *)

Module AuthExamples.

(** [strings.ToUpper] on ASCII letters. *)
Definition upper_char (c : Ascii.ascii) : Ascii.ascii :=
  let n := Ascii.nat_of_ascii c in
  if (97 <=? n)%nat && (n <=? 122)%nat then Ascii.ascii_of_nat (n - 32) else c.

Fixpoint to_upper (s : string) : string :=
  match s with
  | EmptyString => EmptyString
  | String c s' => String (upper_char c) (to_upper s')
  end.

(** Two key files; every parser accepts what it is given. *)
Definition read_file (path : string) : option (list Byte.byte) :=
  if String.eqb path "pub.pem" then Some [Byte.x01]
  else if String.eqb path "priv.pem" then Some [Byte.x02]
  else None.

Definition parse_ok (_ : list Byte.byte) : option Z * option string := (Some 7, None).

Definition register_ok (_ : string) : option string := None.

(** A middleware with both keys on file. *)
Definition from_files (alg : string) : auth.JWTMiddleware :=
  {| auth.SigningAlgorithm := alg;
     auth.PubKeyPath := "pub.pem"; auth.PrivKeyPath := "priv.pem";
     auth.PubKey := auth.NilKey; auth.PrivKey := auth.NilKey;
     auth.Interface := "mysql"; auth.InterfaceConfig := ∅;
     auth.AuthorisedKeys := None; auth.CookieName := "adsisto";
     auth.AuthnTimeout := 60000000000; auth.SessionTimeout := 3600000000000;
     auth.Leeway := 0; auth.Validator := None |}.

(** A middleware with both keys set by the caller, for the key store
    [name]. *)
Definition with_keys (alg name : string) : auth.JWTMiddleware :=
  {| auth.SigningAlgorithm := alg;
     auth.PubKeyPath := "pub.pem"; auth.PrivKeyPath := "priv.pem";
     auth.PubKey := auth.KeyPtr (Some 1); auth.PrivKey := auth.KeyPtr (Some 2);
     auth.Interface := name; auth.InterfaceConfig := ∅;
     auth.AuthorisedKeys := None; auth.CookieName := "adsisto";
     auth.AuthnTimeout := 60000000000; auth.SessionTimeout := 3600000000000;
     auth.Leeway := 0; auth.Validator := None |}.

Definition init_run (m : auth.JWTMiddleware) :=
  auth.MiddlewareInit to_upper read_file parse_ok parse_ok parse_ok parse_ok register_ok m [].

(** A JWT library whose tokens are their issuers; a store that knows
    [alice] and fails, with no key, for everyone else; every token
    validates. *)
Definition parse_jwt (t : string) : option string :=
  if String.eqb t "" then None else Some t.

Definition store_get (_ : auth.KeysStore) (iss : string)
    : auth.KeyInstance * option auth.error :=
  if String.eqb iss "alice"
  then ({| auth.Key := "ssh-ed25519 AAAA"; auth.AccessLevel := 1 |}, None)
  else (auth.zero_KeyInstance, Some auth.ErrKeyNotFound).

Definition validate_ok (_ : string) (_ _ : string) (_ : Z)
    (_ : (string -> auth.ClaimValue) -> auth.Ran (option auth.error))
    : auth.Ran (option auth.error) := auth.Ret None.

Definition authn_run (t : string) (m : auth.JWTMiddleware) :=
  auth.ValidateAuthnRequest string string Z (fun s => s) Z.add Z.ltb
    parse_jwt (fun t => t) store_get validate_ok t m [].

Definition with_store : auth.JWTMiddleware :=
  auth.set_AuthorisedKeys (Some auth.MysqlKeyStore) (with_keys "RS512" "mysql").

End AuthExamples.

Module MoreExamples.

(** The world of one Opus session with two chunks on the C heap. *)
Definition two_buffers : World :=
  let w := Examples.session_world webrtc.Opus in
  {| pipelines := pipelines w;
     cmem := <[200 := [Byte.x04; Byte.x05]]> (cmem w);
     trace := trace w |}.

(** A key event for the key [k] with no modifier but shift. *)
Definition shift_key (k : string) : Console.KeyboardEvent :=
  {| Console.key := k; Console.shiftKey := true; Console.ctrlKey := false;
     Console.altKey := false; Console.metaKey := false |}.

(** A stand-in for [JSON.stringify] that keeps the key only. *)
Definition stringify (m : Console.Message) : string := Console.key_ m.

End MoreExamples.

(** ** Facts about the monad and the log *)

Lemma log_nil w : log [] w = w.
Proof. destruct w; unfold log; simpl. by rewrite app_nil_r. Qed.

Lemma log_log evs1 evs2 w : log evs2 (log evs1 w) = log (evs1 ++ evs2) w.
Proof. unfold log; simpl. by rewrite app_assoc. Qed.

Lemma new_events_app w w' evs : trace w' = trace w ++ evs -> new_events w w' = evs.
Proof. intros H. unfold new_events. rewrite H. apply drop_app_length. Qed.

Lemma writes_to_app t evs1 evs2 :
  writes_to t (evs1 ++ evs2) = writes_to t evs1 ++ writes_to t evs2.
Proof.
  induction evs1 as [|e evs1 IH]; simpl; [done|].
  destruct e; try done. destruct (Nat.eqb t0 t); simpl; by rewrite IH.
Qed.

Lemma all_writes_app evs1 evs2 :
  all_writes (evs1 ++ evs2) = all_writes evs1 ++ all_writes evs2.
Proof.
  induction evs1 as [|e evs1 IH]; simpl; [done|].
  destruct e; try done. simpl. by rewrite IH.
Qed.

Lemma frees_app ptr evs1 evs2 : frees ptr (evs1 ++ evs2) = (frees ptr evs1 + frees ptr evs2)%nat.
Proof.
  induction evs1 as [|e evs1 IH]; simpl; [done|].
  destruct e; try done. destruct (Z.eqb ptr0 ptr); simpl; by rewrite IH.
Qed.

Lemma all_writes_wrote smp ts : all_writes (wrote smp ts) = map (fun t => (t, smp)) ts.
Proof. induction ts as [|t ts IH]; simpl; [done|]. by rewrite IH. Qed.

Lemma writes_to_wrote_notin t smp ts : t ∉ ts -> writes_to t (wrote smp ts) = [].
Proof.
  induction ts as [|t' ts IH]; simpl; [done|].
  intros Hn. apply not_elem_of_cons in Hn as [Hne Hn].
  destruct (Nat.eqb_spec t' t); [congruence|]. by apply IH.
Qed.

Lemma writes_to_wrote_once t smp ts :
  NoDup ts -> t ∈ ts -> writes_to t (wrote smp ts) = [smp].
Proof.
  induction ts as [|t' ts IH]; simpl; intros Hnd Hin.
  - by apply elem_of_nil in Hin.
  - apply NoDup_cons in Hnd as [Hnotin Hnd].
    destruct (Nat.eqb_spec t' t) as [->|Hne].
    + by rewrite writes_to_wrote_notin.
    + apply elem_of_cons in Hin as [->|Hin]; [done|]. by apply IH.
Qed.

Lemma writes_succeed_cons WS tr smp t ts :
  writes_succeed WS tr smp (t :: ts) ->
  WS tr t smp = None /\ writes_succeed WS (tr ++ [EvWriteSample t smp None]) smp ts.
Proof.
  intros H. split.
  - specialize (H [] t ts eq_refl). simpl in H. by rewrite app_nil_r in H.
  - intros pre t' post ->. specialize (H (t :: pre) t' post eq_refl).
    simpl in H. by rewrite <- app_assoc.
Qed.

(** ** The codec switch *)

Lemma supported_cases c :
  supported c = true <->
  c = webrtc.VP8 \/ c = webrtc.VP9 \/ c = webrtc.H264 \/ c = webrtc.Opus \/ c = webrtc.G722.
Proof.
  unfold supported. rewrite bool_decide_eq_true, !elem_of_cons, elem_of_nil. tauto.
Qed.

Lemma encoder_switch_unsupported c src s w :
  supported c = false ->
  encoder_switch c src s w = (Panic (PanicString ("Unhandled codec " +:+ c)), w).
Proof.
  intros Hc. unfold encoder_switch.
  repeat match goal with
  | |- context [String.eqb c ?x] =>
      destruct (String.eqb_spec c x) as [Heq|_];
      [ assert (supported c = true) by (apply supported_cases; tauto); congruence | ]
  end.
  reflexivity.
Qed.

Lemma encoder_switch_supported c src s w :
  supported c = true ->
  exists frag, frag <> "" /\ encoder_switch c src s w = (Return (src +:+ frag +:+ s), w).
Proof.
  intros Hc. unfold encoder_switch.
  repeat match goal with
  | |- context [String.eqb c ?x] =>
      destruct (String.eqb_spec c x) as [_|?];
      [ eexists; split; [|reflexivity]; discriminate | ]
  end.
  apply supported_cases in Hc. exfalso. tauto.
Qed.

(** ** The registry invariant *)

Lemma registry_wf_empty : registry_wf ∅.
Proof.
  split.
  - intros k. rewrite lookup_empty, map_size_empty. split; [by intros [? ?]|lia].
  - intros k p. by rewrite lookup_empty.
Qed.

Lemma registry_wf_fresh (m : gmap Z Pipeline) :
  registry_wf m -> m !! Z.of_nat (size m) = None.
Proof.
  intros [Hdom _]. apply eq_None_not_Some. rewrite Hdom. lia.
Qed.

Lemma registry_wf_insert (m : gmap Z Pipeline) p :
  registry_wf m -> id p = Z.of_nat (size m) -> registry_wf (<[id p := p]> m).
Proof.
  intros Hwf Hid. pose proof (registry_wf_fresh m Hwf) as Hfresh.
  destruct Hwf as [Hdom Hids]. rewrite Hid. split.
  - intros k. rewrite map_size_insert_None by done.
    destruct (decide (Z.of_nat (size m) = k)) as [<-|Hne].
    + rewrite lookup_insert_eq. split; [lia|eauto].
    + rewrite lookup_insert_ne by done. rewrite Hdom. lia.
  - intros k q. destruct (decide (Z.of_nat (size m) = k)) as [<-|Hne].
    + rewrite lookup_insert_eq. by intros [= <-].
    + rewrite lookup_insert_ne by done. apply Hids.
Qed.

Lemma registry_wf_unique (m : gmap Z Pipeline) k1 k2 p1 p2 :
  registry_wf m -> m !! k1 = Some p1 -> m !! k2 = Some p2 -> id p1 = id p2 -> k1 = k2.
Proof.
  intros [_ Hids] H1 H2 Heq. apply Hids in H1, H2. congruence.
Qed.

Section Facts.

Variable gstreamer_send_create_pipeline : string -> GstElement.
Variable WriteSample : list Event -> Track -> Sample -> option string.
Variable uint32_unrepresentable : float32 -> Z.

(** Unfolding equations, stated before the names are abbreviated. *)

Lemma goHandlePipelineBuffer_eq buffer bufferLen duration pipelineID w :
  goHandlePipelineBuffer WriteSample uint32_unrepresentable buffer bufferLen duration pipelineID w =
    match
      match pipelines w !! pipelineID with
      | Some pipeline =>
          write_tracks WriteSample (tracks pipeline) buffer bufferLen
            (samples_for uint32_unrepresentable (codecName pipeline) duration) w
      | None => (Return tt, log [EvPrintf "discarding buffer, no pipeline with id %d" pipelineID] w)
      end
    with
    | (Return _, w') => C_free buffer w'
    | (Panic v, w') => (Panic v, w')
    end.
Proof.
  unfold goHandlePipelineBuffer, mbind, Go_bind, get_pipelines.
  by destruct (pipelines w !! pipelineID).
Qed.

Lemma CreatePipeline_eq codecName tracks pipelineSrc w :
  CreatePipeline gstreamer_send_create_pipeline codecName tracks pipelineSrc w =
    match encoder_switch codecName pipelineSrc "appsink name=appsink" w with
    | (Return pipelineStr, w') =>
        let h := gstreamer_send_create_pipeline pipelineStr in
        let pipeline := {| Pipeline_ := h; tracks := tracks;
                           id := Z.of_nat (size (pipelines w')); codecName := codecName |} in
        (Return pipeline,
         {| pipelines := <[id pipeline := pipeline]> (pipelines w');
            cmem := cmem w';
            trace := trace w' ++ [EvCreatePipeline pipelineStr h] |})
    | (Panic v, w') => (Panic v, w')
    end.
Proof.
  unfold CreatePipeline, mbind, Go_bind.
  destruct (encoder_switch _ _ _ w) as [[s|v] w']; [|done].
  reflexivity.
Qed.

(** [uint32] of a positive float with a fraction: the fraction is dropped. *)

Lemma uint32_of_float32_fraction m q :
  Z.pos m / 2 ^ Z.pos q < 2 ^ 32 ->
  uint32_of_float32 uint32_unrepresentable (S754_finite false m (Z.neg q)) = Z.pos m / 2 ^ Z.pos q.
Proof.
  intros Hlt. unfold uint32_of_float32, float32_trunc.
  rewrite Z.shiftr_div_pow2 by lia.
  assert (0 <= Z.pos m / 2 ^ Z.pos q) by (apply Z.div_pos; lia).
  destruct (Z.leb_spec 0 (Z.pos m / 2 ^ Z.pos q)); [|lia].
  destruct (Z.ltb_spec (Z.pos m / 2 ^ Z.pos q) (2 ^ 32)); [done|lia].
Qed.

Lemma samples_for_eq codecName duration :
  samples_for uint32_unrepresentable codecName duration =
    uint32_of_float32 uint32_unrepresentable
      (float32_mul
         (float32_of_int (if String.eqb codecName webrtc.Opus then audioClockRate else videoClockRate))
         (float32_div (float32_of_int duration) (float32_of_int 1000000000))).
Proof. unfold samples_for, samples_at. by destruct (String.eqb codecName webrtc.Opus). Qed.

Local Abbreviation uint32_of_float32 := (uint32_of_float32 uint32_unrepresentable).
Local Abbreviation CreatePipeline := (CreatePipeline gstreamer_send_create_pipeline).
Local Abbreviation goHandlePipelineBuffer :=
  (goHandlePipelineBuffer WriteSample uint32_unrepresentable).
Local Abbreviation write_tracks := (write_tracks WriteSample).
Local Abbreviation samples_for := (samples_for uint32_unrepresentable).
Local Abbreviation samples_at := (samples_at uint32_unrepresentable).
Local Abbreviation step := (step gstreamer_send_create_pipeline WriteSample uint32_unrepresentable).
Local Abbreviation reachable :=
  (reachable gstreamer_send_create_pipeline WriteSample uint32_unrepresentable).
Local Abbreviation create_all := (create_all gstreamer_send_create_pipeline).

(** *** The copy of the chunk *)

Lemma C_GoBytes_nonneg buffer n w :
  0 <= n -> C_GoBytes buffer n w = (Return (payload buffer n w), w).
Proof.
  intros Hn. unfold C_GoBytes. by destruct (Z.ltb_spec n 0); [lia|].
Qed.

Lemma C_GoBytes_negative buffer n w :
  n < 0 -> C_GoBytes buffer n w = (Panic (PanicRuntime "gobytes: length out of range"), w).
Proof.
  intros Hn. unfold C_GoBytes. by destruct (Z.ltb_spec n 0); [|lia].
Qed.

(** *** The loop over the tracks *)

Lemma write_tracks_ok ts buffer bufferLen samples w :
  0 <= bufferLen ->
  let smp := {| Data := payload buffer bufferLen w; Samples := samples |} in
  writes_succeed WriteSample (trace w) smp ts ->
  write_tracks ts buffer bufferLen samples w = (Return tt, log (wrote smp ts) w).
Proof.
  intros Hlen smp. revert w smp. induction ts as [|t ts IH]; intros w smp Hok.
  - simpl. by rewrite log_nil.
  - apply writes_succeed_cons in Hok as [Ht Hts].
    simpl. unfold mbind, Go_bind. rewrite C_GoBytes_nonneg by done.
    unfold Track_WriteSample. fold smp. rewrite Ht.
    rewrite (IH (log [EvWriteSample t smp None] w)).
    + unfold payload; simpl. fold (payload buffer bufferLen w). fold smp.
      by rewrite log_log.
    + exact Hts.
Qed.

Lemma write_tracks_fail pre t post e buffer bufferLen samples w :
  0 <= bufferLen ->
  let smp := {| Data := payload buffer bufferLen w; Samples := samples |} in
  writes_succeed WriteSample (trace w) smp pre ->
  WriteSample (trace w ++ wrote smp pre) t smp = Some e ->
  write_tracks (pre ++ t :: post) buffer bufferLen samples w =
    (Panic (PanicError e), log (wrote smp pre ++ [EvWriteSample t smp (Some e)]) w).
Proof.
  intros Hlen smp. revert w smp. induction pre as [|t0 pre IH]; intros w smp Hok Hfail.
  - simpl in *. rewrite app_nil_r in Hfail.
    unfold mbind, Go_bind. rewrite C_GoBytes_nonneg by done.
    unfold Track_WriteSample. fold smp. by rewrite Hfail.
  - apply writes_succeed_cons in Hok as [Ht Hts].
    simpl. unfold mbind, Go_bind. rewrite C_GoBytes_nonneg by done.
    unfold Track_WriteSample. fold smp. rewrite Ht.
    rewrite (IH (log [EvWriteSample t0 smp None] w)).
    + unfold payload; simpl. fold (payload buffer bufferLen w). fold smp.
      by rewrite log_log.
    + exact Hts.
    + simpl. rewrite <- app_assoc. exact Hfail.
Qed.

(** With a negative length the first copy panics: nothing is written. *)
Lemma write_tracks_negative_length t ts buffer bufferLen samples w :
  bufferLen < 0 ->
  write_tracks (t :: ts) buffer bufferLen samples w =
    (Panic (PanicRuntime "gobytes: length out of range"), w).
Proof.
  intros Hneg. simpl. unfold mbind, Go_bind. by rewrite C_GoBytes_negative.
Qed.

(** *** The callback *)

Lemma goHandlePipelineBuffer_found buffer bufferLen duration pipelineID w p :
  pipelines w !! pipelineID = Some p ->
  goHandlePipelineBuffer buffer bufferLen duration pipelineID w =
    match write_tracks (tracks p) buffer bufferLen (samples_for (codecName p) duration) w with
    | (Return _, w') => C_free buffer w'
    | (Panic v, w') => (Panic v, w')
    end.
Proof.
  intros Hp. by rewrite goHandlePipelineBuffer_eq, Hp.
Qed.

Lemma goHandlePipelineBuffer_missing buffer bufferLen duration pipelineID w :
  pipelines w !! pipelineID = None ->
  goHandlePipelineBuffer buffer bufferLen duration pipelineID w =
    C_free buffer (log [EvPrintf "discarding buffer, no pipeline with id %d" pipelineID] w).
Proof.
  intros Hp. by rewrite goHandlePipelineBuffer_eq, Hp.
Qed.

(** Whatever the writes return, the loop only adds write events, each
    with the bytes of the buffer and the given sample count. *)
Lemma write_tracks_log ts buffer bufferLen samples w :
  exists evs,
    snd (write_tracks ts buffer bufferLen samples w) = log evs w /\
    frees buffer evs = 0%nat /\
    Forall (fun ts => ts.2 = {| Data := payload buffer bufferLen w; Samples := samples |})
      (all_writes evs).
Proof.
  revert w. induction ts as [|t ts IH]; intros w.
  - exists []. simpl. by rewrite log_nil.
  - simpl. unfold mbind, Go_bind.
    destruct (Z.lt_ge_cases bufferLen 0) as [Hneg|Hlen].
    { rewrite C_GoBytes_negative by done. exists []. simpl. by rewrite log_nil. }
    rewrite C_GoBytes_nonneg by done. unfold Track_WriteSample.
    set (smp := {| Data := payload buffer bufferLen w; Samples := samples |}).
    destruct (WriteSample (trace w) t smp) as [e|] eqn:He.
    + exists [EvWriteSample t smp (Some e)]. simpl. repeat split. by constructor.
    + destruct (IH (log [EvWriteSample t smp None] w)) as (evs & Hw & Hf & Hall).
      exists (EvWriteSample t smp None :: evs). rewrite Hw, log_log. simpl.
      repeat split; [done|]. constructor; [done|]. exact Hall.
Qed.

Lemma goHandlePipelineBuffer_pipelines buffer bufferLen duration pipelineID w :
  pipelines (snd (goHandlePipelineBuffer buffer bufferLen duration pipelineID w)) = pipelines w.
Proof.
  rewrite goHandlePipelineBuffer_eq.
  destruct (pipelines w !! pipelineID) as [p|]; [|done].
  destruct (write_tracks_log (tracks p) buffer bufferLen
              (samples_for (codecName p) duration) w) as (evs & Hw & _).
  destruct (write_tracks _ _ _ _ w) as [[[]|v] w']; simpl in *; by subst w'.
Qed.

(** *** Session creation *)

Lemma CreatePipeline_unsupported codecName tracks pipelineSrc w :
  supported codecName = false ->
  CreatePipeline codecName tracks pipelineSrc w =
    (Panic (PanicString ("Unhandled codec " +:+ codecName)), w).
Proof.
  intros Hc. by rewrite CreatePipeline_eq, encoder_switch_unsupported.
Qed.

Lemma CreatePipeline_supported codecName tracks pipelineSrc w :
  supported codecName = true ->
  exists frag, frag <> "" /\
    let pipelineStr := pipelineSrc +:+ frag +:+ "appsink name=appsink" in
    let p := {| Pipeline_ := gstreamer_send_create_pipeline pipelineStr;
                tracks := tracks;
                id := Z.of_nat (size (pipelines w));
                codecName := codecName |} in
    CreatePipeline codecName tracks pipelineSrc w =
      (Return p,
       {| pipelines := <[id p := p]> (pipelines w);
          cmem := cmem w;
          trace := trace w ++ [EvCreatePipeline pipelineStr (Pipeline_ p)] |}).
Proof.
  intros Hc.
  destruct (encoder_switch_supported codecName pipelineSrc "appsink name=appsink" w Hc)
    as (frag & Hfrag & Hsw).
  exists frag. split; [done|]. by rewrite CreatePipeline_eq, Hsw.
Qed.

Lemma CreatePipeline_registry_wf codecName tracks pipelineSrc w :
  registry_wf (pipelines w) ->
  registry_wf (pipelines (snd (CreatePipeline codecName tracks pipelineSrc w))).
Proof.
  intros Hwf. destruct (supported codecName) eqn:Hc.
  - destruct (CreatePipeline_supported codecName tracks pipelineSrc w Hc) as (frag & _ & Heq).
    simpl in Heq. rewrite Heq. simpl.
    by apply (registry_wf_insert (pipelines w) (Build_Pipeline _ _ _ _)).
  - by rewrite CreatePipeline_unsupported.
Qed.

Lemma CreatePipeline_keeps_sessions codecName tracks pipelineSrc w k p :
  registry_wf (pipelines w) ->
  pipelines w !! k = Some p ->
  pipelines (snd (CreatePipeline codecName tracks pipelineSrc w)) !! k = Some p.
Proof.
  intros Hwf Hk. destruct (supported codecName) eqn:Hc.
  - destruct (CreatePipeline_supported codecName tracks pipelineSrc w Hc) as (frag & _ & Heq).
    simpl in Heq. rewrite Heq. simpl.
    rewrite lookup_insert_ne; [done|].
    intros <-. rewrite (registry_wf_fresh _ Hwf) in Hk. discriminate.
  - by rewrite CreatePipeline_unsupported.
Qed.

(** *** Every operation keeps the registry well formed *)

Lemma step_pipelines w w' :
  step w w' ->
  pipelines w' = pipelines w \/
  exists codecName tracks pipelineSrc,
    w' = snd (CreatePipeline codecName tracks pipelineSrc w).
Proof.
  intros Hstep. inversion Hstep; subst; eauto.
  left. apply goHandlePipelineBuffer_pipelines.
Qed.

Lemma step_registry_wf w w' :
  step w w' -> registry_wf (pipelines w) -> registry_wf (pipelines w').
Proof.
  intros Hstep Hwf. destruct (step_pipelines w w' Hstep) as [->|(c & ts & src & ->)].
  - done.
  - by apply CreatePipeline_registry_wf.
Qed.

Lemma step_keeps_sessions w w' k p :
  step w w' -> registry_wf (pipelines w) ->
  pipelines w !! k = Some p -> pipelines w' !! k = Some p.
Proof.
  intros Hstep Hwf Hk. destruct (step_pipelines w w' Hstep) as [->|(c & ts & src & ->)].
  - done.
  - by apply CreatePipeline_keeps_sessions.
Qed.

Lemma reachable_registry_wf w : reachable w -> registry_wf (pipelines w).
Proof.
  intros Hr.
  refine (rtc_ind_r (fun w => registry_wf (pipelines w)) init _ _ w Hr).
  - apply registry_wf_empty.
  - intros w1 w2 _ Hstep Hwf. by eapply step_registry_wf.
Qed.

Lemma create_all_ids reqs w :
  registry_wf (pipelines w) ->
  Forall (fun r => supported r.1.1 = true) reqs ->
  exists ps,
    fst (create_all reqs w) = Return ps /\
    map id ps = seqZ (Z.of_nat (size (pipelines w))) (Z.of_nat (length reqs)).
Proof.
  revert w. induction reqs as [|[[c ts] src] reqs IH]; intros w Hwf Hall.
  - exists []. done.
  - apply Forall_cons in Hall as [Hc Hall]. simpl in Hc.
    destruct (CreatePipeline_supported c ts src w Hc) as (frag & _ & Heq).
    simpl in Heq. simpl. unfold mbind, Go_bind. rewrite Heq.
    match goal with |- context [create_all reqs ?w1] => set (w' := w1) end.
    assert (Hwf' : registry_wf (pipelines w')).
    { by apply (registry_wf_insert (pipelines w) (Build_Pipeline _ _ _ _)). }
    destruct (IH w' Hwf' Hall) as (ps & Hps & Hids).
    destruct (create_all reqs w') as [[ps'|v] w''] eqn:Hrun; simpl in Hps; [|done].
    injection Hps as ->. eexists. split; [reflexivity|].
    simpl map. rewrite Hids. unfold w'. simpl pipelines.
    rewrite map_size_insert_None by (by apply registry_wf_fresh).
    rewrite (seqZ_cons (Z.of_nat (size (pipelines w)))) by lia.
    f_equal. f_equal; lia.
Qed.

(** The callback on a registered id, whatever the writes return: it only
    writes samples with the bytes of the buffer and the sample count of
    the session's codec, and it releases the buffer exactly when it
    returns. *)
Lemma goHandlePipelineBuffer_found_events buffer bufferLen duration pipelineID w p :
  pipelines w !! pipelineID = Some p ->
  let r := goHandlePipelineBuffer buffer bufferLen duration pipelineID w in
  exists evs,
    frees buffer evs = 0%nat /\
    Forall (fun ts => ts.2 = {| Data := payload buffer bufferLen w;
                                Samples := samples_for (codecName p) duration |})
      (all_writes evs) /\
    ((fst r = Return tt /\ new_events w (snd r) = evs ++ [EvFree buffer]) \/
     ((exists v, fst r = Panic v) /\ new_events w (snd r) = evs)).
Proof.
  intros Hp r. subst r. rewrite (goHandlePipelineBuffer_found _ _ _ _ _ p) by done.
  destruct (write_tracks_log (tracks p) buffer bufferLen
              (samples_for (codecName p) duration) w) as (evs & Hw & Hf & Hall).
  exists evs. split; [done|]. split; [done|].
  destruct (write_tracks _ _ _ _ w) as [[[]|v] w']; simpl in Hw; subst w'.
  - left. split; [done|]. apply new_events_app. simpl. by rewrite <- app_assoc.
  - right. split; [by exists v|]. by apply new_events_app.
Qed.

(** The buffer is released once when the callback returns and not at all
    when it panics. *)
Lemma goHandlePipelineBuffer_frees buffer bufferLen duration pipelineID w :
  let r := goHandlePipelineBuffer buffer bufferLen duration pipelineID w in
  frees buffer (new_events w (snd r)) =
    match fst r with Return _ => 1%nat | Panic _ => 0%nat end.
Proof.
  intros r. destruct (pipelines w !! pipelineID) as [p|] eqn:Hp.
  - destruct (goHandlePipelineBuffer_found_events buffer bufferLen duration pipelineID w p Hp)
      as (evs & Hf & _ & [[Hr Hev]|[[v Hr] Hev]]); fold r in Hr, Hev; rewrite Hr, Hev.
    + rewrite frees_app, Hf. simpl. by rewrite Z.eqb_refl.
    + exact Hf.
  - subst r. rewrite goHandlePipelineBuffer_missing by done.
    unfold C_free, log; simpl.
    rewrite (new_events_app w _ [EvPrintf "discarding buffer, no pipeline with id %d" pipelineID;
                                EvFree buffer]) by (simpl; by rewrite <- app_assoc).
    simpl. by rewrite Z.eqb_refl.
Qed.

(** ** The claims *)

(** C3: a buffer for an id that is not in the registry: the callback
    returns without panic, prints the discard notice, writes to no track
    and leaves the registry as it was. *)
Theorem C3_unknown_id_discarded buffer bufferLen duration pipelineID w :
  pipelines w !! pipelineID = None ->
  let r := goHandlePipelineBuffer buffer bufferLen duration pipelineID w in
  fst r = Return tt /\
  new_events w (snd r) =
    [EvPrintf "discarding buffer, no pipeline with id %d" pipelineID; EvFree buffer] /\
  all_writes (new_events w (snd r)) = [] /\
  (forall t, writes_to t (new_events w (snd r)) = []) /\
  pipelines (snd r) = pipelines w.
Proof.
  intros Hp r. subst r. rewrite goHandlePipelineBuffer_missing by done.
  unfold C_free, log; simpl.
  rewrite (new_events_app w _ [EvPrintf "discarding buffer, no pipeline with id %d" pipelineID;
                              EvFree buffer]) by (simpl; by rewrite <- app_assoc).
  done.
Qed.

(** C4: a buffer for a registered session whose writes all succeed: the
    callback makes one write per entry of the session's tracks, in order,
    and nothing else but the final release; every write carries the bytes
    of the chunk and the one sample count computed for the call. *)
Theorem C4_one_sample_per_track buffer bufferLen duration pipelineID w p chunk :
  pipelines w !! pipelineID = Some p ->
  cmem w !! buffer = Some chunk ->
  bufferLen = Z.of_nat (length chunk) ->
  let smp := {| Data := chunk; Samples := samples_for (codecName p) duration |} in
  writes_succeed WriteSample (trace w) smp (tracks p) ->
  let r := goHandlePipelineBuffer buffer bufferLen duration pipelineID w in
  fst r = Return tt /\
  new_events w (snd r) = wrote smp (tracks p) ++ [EvFree buffer] /\
  all_writes (new_events w (snd r)) = map (fun t => (t, smp)) (tracks p) /\
  (forall t, t ∉ tracks p -> writes_to t (new_events w (snd r)) = []) /\
  (NoDup (tracks p) -> forall t, t ∈ tracks p -> writes_to t (new_events w (snd r)) = [smp]).
Proof.
  intros Hp Hmem Hlen smp Hok r. subst r.
  assert (Hpay : payload buffer bufferLen w = chunk).
  { unfold payload. rewrite Hmem, Hlen, Nat2Z.id. simpl. apply firstn_all. }
  assert (Hnn : 0 <= bufferLen) by lia.
  rewrite (goHandlePipelineBuffer_found _ _ _ _ _ p) by done.
  rewrite (write_tracks_ok _ _ _ _ _ Hnn); rewrite Hpay; [|exact Hok]. fold smp.
  unfold C_free, log; simpl.
  rewrite (new_events_app w _ (wrote smp (tracks p) ++ [EvFree buffer]))
    by (simpl; by rewrite <- app_assoc).
  split; [done|]. split; [done|].
  split; [|split].
  - rewrite all_writes_app, all_writes_wrote. simpl. by rewrite app_nil_r.
  - intros t Ht. rewrite writes_to_app, writes_to_wrote_notin by done. done.
  - intros Hnd t Ht. rewrite writes_to_app, (writes_to_wrote_once t smp) by done. done.
Qed.

(** C6: a buffer for a registered session where the write to some track
    returns an error [e] (the writes before it having succeeded): the
    callback panics with [e]; no later track is written to.  A write is
    only made of a chunk that [C.GoBytes] could copy, that is, with a
    length that is not negative. *)
Theorem C6_write_failure_panics buffer bufferLen duration pipelineID w p pre t post e :
  pipelines w !! pipelineID = Some p ->
  tracks p = pre ++ t :: post ->
  0 <= bufferLen ->
  let smp := {| Data := payload buffer bufferLen w;
                Samples := samples_for (codecName p) duration |} in
  writes_succeed WriteSample (trace w) smp pre ->
  WriteSample (trace w ++ wrote smp pre) t smp = Some e ->
  let r := goHandlePipelineBuffer buffer bufferLen duration pipelineID w in
  fst r = Panic (PanicError e) /\
  new_events w (snd r) = wrote smp pre ++ [EvWriteSample t smp (Some e)].
Proof.
  intros Hp Hts Hlen smp Hok Hfail r. subst r.
  rewrite (goHandlePipelineBuffer_found _ _ _ _ _ p), Hts by done.
  rewrite (write_tracks_fail pre t post e) by done. fold smp.
  split; [done|]. simpl. by apply new_events_app.
Qed.

(** C7: a codec name that [CreatePipeline] has no case for: the call
    panics and the world, the registry in it, is as before; the native
    pipeline was not even asked for. *)
Theorem C7_unsupported_codec_panics codecName tracks pipelineSrc w :
  supported codecName = false ->
  let r := CreatePipeline codecName tracks pipelineSrc w in
  fst r = Panic (PanicString ("Unhandled codec " +:+ codecName)) /\
  snd r = w /\
  pipelines (snd r) = pipelines w /\
  new_events w (snd r) = [].
Proof.
  intros Hc r. subst r. rewrite CreatePipeline_unsupported by done. simpl.
  repeat split. apply new_events_app. by rewrite app_nil_r.
Qed.

(** C9: [Stop] only tells the native pipeline to stop: the registry is the
    same map afterwards, and a session found under an id before is found
    there afterwards, the same in every field. *)
Theorem C9_stop_keeps_registry p w :
  let r := Stop p w in
  fst r = Return tt /\
  pipelines (snd r) = pipelines w /\
  new_events w (snd r) = [EvStopPipeline (Pipeline_ p)] /\
  (forall k q, pipelines w !! k = Some q ->
     pipelines (snd r) !! k = Some q) /\
  (pipelines w !! id p = Some p ->
     exists q, pipelines (snd r) !! id p = Some q /\
       id q = id p /\ codecName q = codecName p /\ tracks q = tracks p).
Proof.
  simpl. repeat split.
  - by apply new_events_app.
  - done.
  - intros Hp. by exists p.
Qed.

(** C2, for the code as it is: the sample count of every write is the [uint32] of
    the [float32] product of the clock rate and the [float32] quotient of
    the duration by 1e9, and that conversion drops the fraction; an Opus
    session with 20_000_000 ns gets 960, a VP8 session with 33_333_333 ns
    gets 2999. *)
Theorem C2_sample_count_truncated buffer bufferLen duration pipelineID w p :
  pipelines w !! pipelineID = Some p ->
  let r := goHandlePipelineBuffer buffer bufferLen duration pipelineID w in
  let clockRate := if String.eqb (codecName p) webrtc.Opus then 48000 else 90000 in
  let x := float32_mul (float32_of_int clockRate)
             (float32_div (float32_of_int duration) (float32_of_int 1000000000)) in
  Forall (fun ts => Samples ts.2 = uint32_of_float32 x) (all_writes (new_events w (snd r))) /\
  (forall m q, x = S754_finite false m (Z.neg q) -> Z.pos m / 2 ^ Z.pos q < 2 ^ 32 ->
     uint32_of_float32 x = Z.pos m / 2 ^ Z.pos q) /\
  (codecName p = webrtc.Opus -> duration = 20000000 -> uint32_of_float32 x = 960) /\
  (codecName p = webrtc.VP8 -> duration = 33333333 -> uint32_of_float32 x = 2999).
Proof.
  intros Hp r clockRate x.
  assert (Hx : samples_for (codecName p) duration = uint32_of_float32 x).
  { subst x clockRate. apply samples_for_eq. }
  split; [|split; [|split]].
  - destruct (goHandlePipelineBuffer_found_events buffer bufferLen duration pipelineID w p Hp)
      as (evs & _ & Hall & [[_ Hev]|[_ Hev]]); fold r in Hev; rewrite Hev.
    + rewrite all_writes_app. simpl. rewrite app_nil_r.
      eapply Forall_impl; [exact Hall|]. intros [t smp] ->. simpl. exact Hx.
    + eapply Forall_impl; [exact Hall|]. intros [t smp] ->. simpl. exact Hx.
  - intros m q -> Hlt. by apply uint32_of_float32_fraction.
  - intros Hc ->. subst x clockRate. rewrite Hc. by vm_compute.
  - intros Hc ->. subst x clockRate. rewrite Hc. by vm_compute.
Qed.

(** C5: in every world the package can reach, no two registered sessions
    share an id; a new session gets the size of the registry as its id, a
    key that is free; N sessions created in a row get consecutive ids, from
    0 in the first world; and no operation removes a session or changes
    it. *)
Theorem C5_session_ids_unique w :
  reachable w ->
  (forall k1 k2 p1 p2,
     pipelines w !! k1 = Some p1 -> pipelines w !! k2 = Some p2 ->
     id p1 = id p2 -> k1 = k2 /\ p1 = p2) /\
  (forall codec ts src, supported codec = true ->
     exists p, fst (CreatePipeline codec ts src w) = Return p /\
       id p = Z.of_nat (size (pipelines w)) /\
       pipelines w !! id p = None /\
       pipelines (snd (CreatePipeline codec ts src w)) !! id p = Some p) /\
  (forall reqs, Forall (fun r => supported r.1.1 = true) reqs ->
     exists ps, fst (create_all reqs w) = Return ps /\
       map id ps = seqZ (Z.of_nat (size (pipelines w))) (Z.of_nat (length reqs))) /\
  (forall reqs, Forall (fun r => supported r.1.1 = true) reqs ->
     exists ps, fst (create_all reqs init) = Return ps /\
       map id ps = seqZ 0 (Z.of_nat (length reqs))) /\
  (forall w', step w w' ->
     reachable w' /\
     forall k p, pipelines w !! k = Some p -> pipelines w' !! k = Some p).
Proof.
  intros Hr. pose proof (reachable_registry_wf w Hr) as Hwf.
  split; [|split; [|split; [|split]]].
  - intros k1 k2 p1 p2 H1 H2 Hid.
    assert (k1 = k2) as -> by (by eapply registry_wf_unique).
    split; [done|congruence].
  - intros codec ts src Hc.
    destruct (CreatePipeline_supported codec ts src w Hc) as (frag & _ & Heq).
    simpl in Heq. rewrite Heq. eexists. split; [reflexivity|]. simpl.
    split; [done|]. split; [by apply registry_wf_fresh|]. apply lookup_insert_eq.
  - intros reqs Hall. by apply create_all_ids.
  - intros reqs Hall. apply (create_all_ids reqs init registry_wf_empty Hall).
  - intros w' Hstep. split.
    + by eapply rtc_r.
    + intros k p. by apply step_keeps_sessions.
Qed.

(** C10: for a supported codec and any source description, in any world
    the package can reach, [CreatePipeline] returns a session with the
    codec and the tracks it was given, stored in the registry under a key
    that was free; the description goes to the native side as it is, in
    front of the encoder and the sink, and whatever address comes back is
    kept. *)
Theorem C10_supported_codec_creates codec ts src w :
  supported codec = true ->
  reachable w ->
  let r := CreatePipeline codec ts src w in
  exists p frag,
    fst r = Return p /\
    codecName p = codec /\ tracks p = ts /\
    id p = Z.of_nat (size (pipelines w)) /\
    pipelines w !! id p = None /\
    pipelines (snd r) = <[id p := p]> (pipelines w) /\
    pipelines (snd r) !! id p = Some p /\
    size (pipelines (snd r)) = S (size (pipelines w)) /\
    Pipeline_ p = gstreamer_send_create_pipeline (src +:+ frag +:+ "appsink name=appsink") /\
    new_events w (snd r) =
      [EvCreatePipeline (src +:+ frag +:+ "appsink name=appsink") (Pipeline_ p)].
Proof.
  intros Hc Hr r. subst r. pose proof (reachable_registry_wf w Hr) as Hwf.
  destruct (CreatePipeline_supported codec ts src w Hc) as (frag & _ & Heq).
  simpl in Heq. rewrite Heq. eexists _, frag. simpl.
  repeat split.
  - by apply registry_wf_fresh.
  - apply lookup_insert_eq.
  - apply map_size_insert_None. by apply registry_wf_fresh.
  - by apply new_events_app.
Qed.

End Facts.

(** ** The statements on concrete runs *)

Import Examples.

Lemma session_world_reachable WS oor codec :
  reachable native_create WS oor (session_world codec).
Proof.
  eapply rtc_l; [apply step_CreatePipeline with (codecName := codec)
                   (tracks := [1%nat; 2%nat]) (pipelineSrc := "videotestsrc")|].
  eapply rtc_l; [apply step_native with (cm := {[ 100 := chunk ]})|].
  apply rtc_refl.
Qed.

Lemma writes_ok_succeed tr smp ts : writes_succeed writes_ok tr smp ts.
Proof. by intros pre t post _. Qed.

(** C3 on a run: id 7 is not registered in a world with one VP8 session. *)
Lemma C3_witness :
  pipelines (session_world webrtc.VP8) !! 7 = None /\
  fst (goHandlePipelineBuffer writes_ok unrepresentable 100 3 20000000 7
         (session_world webrtc.VP8)) = Return tt.
Proof.
  split; [by vm_compute|].
  apply (C3_unknown_id_discarded writes_ok unrepresentable 100 3 20000000 7
           (session_world webrtc.VP8)).
  by vm_compute.
Defined.

(** C4 on a run: an Opus session with tracks 1 and 2, both taking the sample. *)
Lemma C4_witness :
  let w := session_world webrtc.Opus in
  let p := {| Pipeline_ := 4096; tracks := [1%nat; 2%nat]; id := 0; codecName := webrtc.Opus |} in
  let smp := {| Data := chunk; Samples := 960 |} in
  pipelines w !! 0 = Some p /\
  cmem w !! 100 = Some chunk /\
  writes_succeed writes_ok (trace w) smp (tracks p) /\
  all_writes (new_events w (snd (goHandlePipelineBuffer writes_ok unrepresentable
                                   100 3 20000000 0 w))) =
    [(1%nat, smp); (2%nat, smp)].
Proof.
  intros w p smp.
  assert (Hp : pipelines w !! 0 = Some p) by (by vm_compute).
  assert (Hm : cmem w !! 100 = Some chunk) by (by vm_compute).
  split; [exact Hp|]. split; [exact Hm|]. split; [apply writes_ok_succeed|].
  apply (C4_one_sample_per_track writes_ok unrepresentable 100 3 20000000 0 w p chunk
           Hp Hm eq_refl (writes_ok_succeed _ _ _)).
Defined.

(** C6 on a run: a VP8 session with tracks 1 and 2, track 2 closed. *)
Lemma C6_witness :
  let w := session_world webrtc.VP8 in
  let p := {| Pipeline_ := 4096; tracks := [1%nat; 2%nat]; id := 0; codecName := webrtc.VP8 |} in
  let smp := {| Data := chunk; Samples := 1800 |} in
  pipelines w !! 0 = Some p /\
  0 <= 3 /\
  track2_closed (trace w ++ wrote smp [1%nat]) 2%nat smp = Some "io: read/write on closed pipe" /\
  fst (goHandlePipelineBuffer track2_closed unrepresentable 100 3 20000000 0 w) =
    Panic (PanicError "io: read/write on closed pipe").
Proof.
  intros w p smp.
  assert (Hp : pipelines w !! 0 = Some p) by (by vm_compute).
  assert (Hlen : 0 <= 3) by lia.
  split; [exact Hp|]. split; [exact Hlen|]. split; [reflexivity|].
  apply (C6_write_failure_panics track2_closed unrepresentable 100 3 20000000 0 w p
           [1%nat] 2%nat [] "io: read/write on closed pipe" Hp eq_refl Hlen).
  - intros pre t post Heq.
    destruct pre as [|t0 pre]; simpl in Heq.
    + injection Heq as <- <-. reflexivity.
    + injection Heq as _ Heq. destruct pre; discriminate.
  - reflexivity.
Defined.

(** C7 on a run: PCMU is not among the five codecs. *)
Lemma C7_witness :
  supported "PCMU" = false /\
  fst (CreatePipeline native_create "PCMU" [1%nat] "audiotestsrc" init) =
    Panic (PanicString "Unhandled codec PCMU") /\
  snd (CreatePipeline native_create "PCMU" [1%nat] "audiotestsrc" init) = init.
Proof.
  split; [reflexivity|].
  pose proof (C7_unsupported_codec_panics native_create "PCMU" [1%nat] "audiotestsrc" init
                eq_refl) as (H1 & H2 & _).
  split; [exact H1|exact H2].
Defined.

(** C9 on a run: stopping the H264 session registered under id 0. *)
Lemma C9_witness :
  let w := session_world webrtc.H264 in
  let p := {| Pipeline_ := 4096; tracks := [1%nat; 2%nat]; id := 0; codecName := webrtc.H264 |} in
  pipelines w !! id p = Some p /\
  exists q, pipelines (snd (Stop p w)) !! id p = Some q /\
    id q = id p /\ codecName q = codecName p /\ tracks q = tracks p.
Proof.
  intros w p.
  assert (Hp : pipelines w !! id p = Some p) by (by vm_compute).
  split; [exact Hp|].
  destruct (C9_stop_keeps_registry p w) as (_ & _ & _ & _ & H).
  exact (H Hp).
Defined.

(** C10 on a run: a G722 session with an empty source description, created
    after a first session. *)
Lemma C10_witness :
  supported webrtc.G722 = true /\
  reachable native_create writes_ok unrepresentable (session_world webrtc.VP8) /\
  exists p,
    fst (CreatePipeline native_create webrtc.G722 [3%nat] "" (session_world webrtc.VP8)) = Return p /\
    codecName p = webrtc.G722 /\ tracks p = [3%nat] /\ id p = 1.
Proof.
  split; [reflexivity|]. split; [apply session_world_reachable|].
  destruct (C10_supported_codec_creates native_create writes_ok unrepresentable
              webrtc.G722 [3%nat] "" (session_world webrtc.VP8) eq_refl
              (session_world_reachable _ _ _))
    as (p & frag & Hr & Hc & Ht & Hid & _).
  exists p. repeat split; first [done | rewrite Hid; by vm_compute].
Defined.

(** C5 on a run: three sessions created in a row from the first world. *)
Lemma C5_witness :
  reachable native_create writes_ok unrepresentable (session_world webrtc.VP8) /\
  exists ps,
    fst (create_all native_create
           [(webrtc.Opus, [1%nat], "audiotestsrc");
            (webrtc.H264, [2%nat], "videotestsrc");
            (webrtc.VP9, [], "videotestsrc")] init) = Return ps /\
    map id ps = [0; 1; 2].
Proof.
  split; [apply session_world_reachable|].
  destruct (C5_session_ids_unique native_create writes_ok unrepresentable
              (session_world webrtc.VP8) (session_world_reachable _ _ _))
    as (_ & _ & _ & H & _).
  apply (H [(webrtc.Opus, [1%nat], "audiotestsrc");
            (webrtc.H264, [2%nat], "videotestsrc");
            (webrtc.VP9, [], "videotestsrc")]).
  repeat constructor.
Defined.

(** C2 on a run: an Opus session and a buffer of 20 ms. *)
Lemma C2_witness :
  let w := session_world webrtc.Opus in
  let p := {| Pipeline_ := 4096; tracks := [1%nat; 2%nat]; id := 0; codecName := webrtc.Opus |} in
  pipelines w !! 0 = Some p /\
  Forall (fun ts => Samples ts.2 = 960)
    (all_writes (new_events w (snd (goHandlePipelineBuffer writes_ok unrepresentable
                                      100 3 20000000 0 w)))).
Proof.
  intros w p.
  assert (Hp : pipelines w !! 0 = Some p) by (by vm_compute).
  split; [exact Hp|].
  exact (proj1 (C2_sample_count_truncated writes_ok unrepresentable 100 3 20000000 0 w p Hp)).
Defined.

(** C2, as the specification has it, fails: for a VP8 session and
    33_333_333 ns, rounding [90000 * 33333333 / 1e9] gives 3000, while the
    samples the callback writes carry 2999. *)
Lemma C2_counterexample_vp8 :
  let w := session_world webrtc.VP8 in
  let r := goHandlePipelineBuffer writes_ok unrepresentable 100 3 33333333 0 w in
  spec_samples 90000 33333333 = 3000 /\
  all_writes (new_events w (snd r)) =
    [(1%nat, {| Data := chunk; Samples := 2999 |});
     (2%nat, {| Data := chunk; Samples := 2999 |})] /\
  ~ Forall (fun ts => Samples ts.2 = 3000) (all_writes (new_events w (snd r))).
Proof.
  intros w r.
  assert (Hev : all_writes (new_events w (snd r)) =
                  [(1%nat, {| Data := chunk; Samples := 2999 |});
                   (2%nat, {| Data := chunk; Samples := 2999 |})]) by (by vm_compute).
  split; [by vm_compute|]. split; [exact Hev|].
  rewrite Hev. intros H. apply Forall_cons in H as [H _]. simpl in H. discriminate.
Qed.

(** C1: a G722 session gets the sample count of the video clock rate: for
    20_000_000 ns the callback writes 1800 (= 90000 * 0.02) where 48000 Hz
    would give 960.  Only Opus takes the audio rate; every other codec name,
    G722 among them, takes the [else] branch. *)
Theorem C1_g722_at_video_clock_rate :
  let w := session_world webrtc.G722 in
  let r := goHandlePipelineBuffer writes_ok unrepresentable 100 3 20000000 0 w in
  all_writes (new_events w (snd r)) =
    [(1%nat, {| Data := chunk; Samples := 1800 |});
     (2%nat, {| Data := chunk; Samples := 1800 |})] /\
  samples_at unrepresentable videoClockRate 20000000 = 1800 /\
  samples_at unrepresentable audioClockRate 20000000 = 960 /\
  (forall oor d, samples_for oor webrtc.G722 d = samples_at oor 90000 d) /\
  (forall oor d, samples_for oor webrtc.Opus d = samples_at oor 48000 d) /\
  (forall oor d, samples_for oor webrtc.VP8 d = samples_at oor 90000 d) /\
  (forall oor d, samples_for oor webrtc.VP9 d = samples_at oor 90000 d) /\
  (forall oor d, samples_for oor webrtc.H264 d = samples_at oor 90000 d).
Proof.
  intros w r. split; [by vm_compute|]. split; [by vm_compute|]. split; [by vm_compute|].
  repeat split; intros oor d; reflexivity.
Qed.

(** C8: when a track write fails the buffer is not released: the callback
    panics before it reaches [C.free], and the block is still on the C heap.
    On the other two paths, in the same world, it is released once.  In
    general the buffer is released once if the callback returns and never
    if it panics. *)
Theorem C8_no_release_on_write_failure :
  let w := session_world webrtc.Opus in
  let failed := goHandlePipelineBuffer track2_closed unrepresentable 100 3 20000000 0 w in
  let written := goHandlePipelineBuffer writes_ok unrepresentable 100 3 20000000 0 w in
  let discarded := goHandlePipelineBuffer writes_ok unrepresentable 100 3 20000000 7 w in
  fst failed = Panic (PanicError "io: read/write on closed pipe") /\
  frees 100 (new_events w (snd failed)) = 0%nat /\
  cmem (snd failed) !! 100 = Some chunk /\
  fst written = Return tt /\
  frees 100 (new_events w (snd written)) = 1%nat /\
  cmem (snd written) !! 100 = None /\
  fst discarded = Return tt /\
  frees 100 (new_events w (snd discarded)) = 1%nat /\
  cmem (snd discarded) !! 100 = None /\
  (forall WS oor buffer bufferLen duration pipelineID w0,
     let r := goHandlePipelineBuffer WS oor buffer bufferLen duration pipelineID w0 in
     frees buffer (new_events w0 (snd r)) =
       match fst r with Return _ => 1%nat | Panic _ => 0%nat end).
Proof.
  intros w failed written discarded.
  do 9 (split; [by vm_compute|]).
  intros WS oor buffer bufferLen duration pipelineID w0. apply goHandlePipelineBuffer_frees.
Qed.

(** ** More about the bridge: how the operations compose *)

Lemma created_app evs1 evs2 : created (evs1 ++ evs2) = created evs1 ++ created evs2.
Proof.
  induction evs1 as [|e evs1 IH]; simpl; [done|].
  destruct e; try done. simpl. by rewrite IH.
Qed.

Lemma uint32_of_float32_in_range oor x z :
  float32_trunc x = Some z -> 0 <= z < 2 ^ 32 -> uint32_of_float32 oor x = z.
Proof.
  intros Hx [Hlo Hhi]. unfold uint32_of_float32. rewrite Hx.
  destruct (Z.leb_spec 0 z); [|lia]. destruct (Z.ltb_spec z (2 ^ 32)); [done|lia].
Qed.

Lemma C_int_small z : - 2 ^ 31 <= z < 2 ^ 31 -> C_int z = z.
Proof. intros Hz. unfold C_int. rewrite Z.mod_small by lia. lia. Qed.

Lemma C_int_wraps z : 2 ^ 31 <= z < 2 ^ 32 -> C_int z = z - 2 ^ 32.
Proof.
  intros Hz. unfold C_int.
  replace (z + 2 ^ 31) with ((z - 2 ^ 31) + 1 * 2 ^ 32) by lia.
  rewrite Z.mod_add by lia. rewrite Z.mod_small by lia. lia.
Qed.

Section BridgeMore.

Variable gstreamer_send_create_pipeline : string -> GstElement.
Variable WriteSample : list Event -> Track -> Sample -> option string.
Variable uint32_unrepresentable : float32 -> Z.

Local Abbreviation CreatePipeline := (CreatePipeline gstreamer_send_create_pipeline).
Local Abbreviation goHandlePipelineBuffer :=
  (goHandlePipelineBuffer WriteSample uint32_unrepresentable).
Local Abbreviation write_tracks := (write_tracks WriteSample).
Local Abbreviation samples_for := (samples_for uint32_unrepresentable).
Local Abbreviation samples_at := (samples_at uint32_unrepresentable).
Local Abbreviation step := (step gstreamer_send_create_pipeline WriteSample uint32_unrepresentable).
Local Abbreviation reachable :=
  (reachable gstreamer_send_create_pipeline WriteSample uint32_unrepresentable).

(** The world the callback leaves when the id is registered and every
    write succeeds. *)
Lemma goHandlePipelineBuffer_ok buffer bufferLen duration pipelineID w p :
  pipelines w !! pipelineID = Some p ->
  0 <= bufferLen ->
  let smp := {| Data := payload buffer bufferLen w;
                Samples := samples_for (codecName p) duration |} in
  writes_succeed WriteSample (trace w) smp (tracks p) ->
  goHandlePipelineBuffer buffer bufferLen duration pipelineID w =
    (Return tt,
     {| pipelines := pipelines w;
        cmem := delete buffer (cmem w);
        trace := trace w ++ wrote smp (tracks p) ++ [EvFree buffer] |}).
Proof.
  intros Hp Hlen smp Hok.
  rewrite (goHandlePipelineBuffer_found _ _ _ _ _ _ _ p) by done.
  rewrite (write_tracks_ok _ _ _ _ _ _ Hlen) by exact Hok. fold smp.
  unfold C_free, log; simpl. by rewrite <- app_assoc.
Qed.

Lemma payload_chunk buffer chunk w :
  cmem w !! buffer = Some chunk ->
  payload buffer (Z.of_nat (length chunk)) w = chunk.
Proof.
  intros Hm. unfold payload. rewrite Hm, Nat2Z.id. simpl. apply firstn_all.
Qed.

(** Whatever the writes return, the loop writes to a prefix of the tracks,
    creates no native pipeline and releases nothing. *)
Lemma write_tracks_events ts buffer bufferLen samples w :
  exists evs,
    snd (write_tracks ts buffer bufferLen samples w) = log evs w /\
    created evs = [] /\
    (forall b, frees b evs = 0%nat) /\
    map fst (all_writes evs) `prefix_of` ts.
Proof.
  revert w. induction ts as [|t ts IH]; intros w.
  - exists []. simpl. rewrite log_nil. repeat split. by exists [].
  - simpl. unfold mbind, Go_bind.
    destruct (Z.lt_ge_cases bufferLen 0) as [Hneg|Hlen].
    { rewrite C_GoBytes_negative by done. exists []. simpl. rewrite log_nil.
      repeat split. apply prefix_nil. }
    rewrite C_GoBytes_nonneg by done. unfold Track_WriteSample.
    match goal with |- context [WriteSample (trace w) t ?s] => set (smp := s) end.
    destruct (WriteSample (trace w) t smp) as [e|] eqn:He.
    + exists [EvWriteSample t smp (Some e)]. simpl. repeat split. by exists ts.
    + destruct (IH (log [EvWriteSample t smp None] w)) as (evs & Hw & Hc & Hf & Hpre).
      exists (EvWriteSample t smp None :: evs). rewrite Hw, log_log. simpl.
      repeat split; [done|done|]. by apply prefix_cons.
Qed.

(** The events of one call of the callback. *)
Lemma goHandlePipelineBuffer_events buffer bufferLen duration pipelineID w :
  let r := goHandlePipelineBuffer buffer bufferLen duration pipelineID w in
  exists evs,
    trace (snd r) = trace w ++ evs /\
    created evs = [] /\
    (forall b, b <> buffer -> frees b evs = 0%nat) /\
    (forall b, b <> buffer -> cmem (snd r) !! b = cmem w !! b) /\
    match pipelines w !! pipelineID with
    | Some p => map fst (all_writes evs) `prefix_of` tracks p
    | None => all_writes evs = []
    end.
Proof.
  intros r. subst r. destruct (pipelines w !! pipelineID) as [p|] eqn:Hp.
  - rewrite (goHandlePipelineBuffer_found _ _ _ _ _ _ _ p) by done.
    destruct (write_tracks_events (tracks p) buffer bufferLen
                (samples_for (codecName p) duration) w) as (evs & Hw & Hc & Hf & Hpre).
    destruct (write_tracks _ _ _ _ w) as [[[]|v] w']; simpl in Hw; subst w'.
    + exists (evs ++ [EvFree buffer]). simpl. rewrite app_assoc. split; [done|].
      rewrite created_app, all_writes_app, Hc. simpl. rewrite app_nil_r.
      repeat split; [|by intros; apply lookup_delete_ne|done].
      intros b Hb. rewrite frees_app, Hf. simpl.
      destruct (Z.eqb_spec buffer b); [congruence|done].
    + exists evs. simpl. repeat split; done.
  - rewrite goHandlePipelineBuffer_missing by done.
    exists [EvPrintf "discarding buffer, no pipeline with id %d" pipelineID; EvFree buffer].
    unfold C_free, log; simpl. rewrite <- app_assoc. simpl.
    repeat split; [|by intros; apply lookup_delete_ne].
    intros b Hb. destruct (Z.eqb_spec buffer b); [congruence|done].
Qed.

(** *** Creating a session, then a buffer for it *)

(** X1: a session that [CreatePipeline] has just returned is found by the
    callback under its id: a buffer for that id, all writes succeeding, goes
    to the tracks given at creation, each once and in order, with the bytes
    of the chunk and the sample count of the codec given at creation. *)
Theorem create_then_buffer_delivers codec ts src buffer chunk duration w :
  reachable w ->
  supported codec = true ->
  cmem w !! buffer = Some chunk ->
  let c := CreatePipeline codec ts src w in
  let smp := {| Data := chunk; Samples := samples_for codec duration |} in
  writes_succeed WriteSample (trace (snd c)) smp ts ->
  exists p,
    fst c = Return p /\
    let r := goHandlePipelineBuffer buffer (Z.of_nat (length chunk)) duration (id p) (snd c) in
    fst r = Return tt /\
    all_writes (new_events (snd c) (snd r)) = map (fun t => (t, smp)) ts.
Proof.
  intros Hr Hc Hm c smp Hok. subst c.
  destruct (CreatePipeline_supported gstreamer_send_create_pipeline codec ts src w Hc)
    as (frag & _ & Heq).
  simpl in Heq. rewrite Heq in *. cbn [fst snd] in *.
  match type of Heq with _ = (Return ?p0, ?w0) => set (p := p0) in *; set (w1 := w0) in * end.
  exists p. split; [reflexivity|]. cbn [id p].
  assert (Hp : pipelines w1 !! Z.of_nat (size (pipelines w)) = Some p)
    by apply lookup_insert_eq.
  assert (Hpay : payload buffer (Z.of_nat (length chunk)) w1 = chunk)
    by (by apply payload_chunk).
  rewrite (goHandlePipelineBuffer_ok _ _ _ _ _ p Hp (Nat2Z.is_nonneg _));
    rewrite Hpay; [|exact Hok].
  simpl. split; [done|].
  rewrite (new_events_app w1 _ (wrote smp ts ++ [EvFree buffer])) by done.
  rewrite all_writes_app, all_writes_wrote. simpl. by rewrite app_nil_r.
Qed.

(** *** [Start] *)

(** X2: [Start] on the session that [CreatePipeline] has just returned:
    with fewer than 2^31 sessions registered before, the native pipeline is
    started with the very id under which the registry holds the session;
    with 2^31 or more (below 2^32) the [C.int] conversion wraps, the native
    side gets a negative id, and no session is registered under it.  Either
    way [Start] returns and leaves registry and C heap alone. *)
Theorem Start_passes_session_id codec ts src w :
  reachable w ->
  supported codec = true ->
  let c := CreatePipeline codec ts src w in
  exists p,
    fst c = Return p /\
    let s := Start p (snd c) in
    fst s = Return tt /\
    pipelines (snd s) = pipelines (snd c) /\
    cmem (snd s) = cmem w /\
    (Z.of_nat (size (pipelines w)) < 2 ^ 31 ->
       new_events (snd c) (snd s) = [EvStartPipeline (Pipeline_ p) (id p)] /\
       pipelines (snd s) !! id p = Some p) /\
    (2 ^ 31 <= Z.of_nat (size (pipelines w)) < 2 ^ 32 ->
       exists i, new_events (snd c) (snd s) = [EvStartPipeline (Pipeline_ p) i] /\
         i = id p - 2 ^ 32 /\ pipelines (snd s) !! i = None).
Proof.
  intros Hr Hc c. subst c. pose proof (reachable_registry_wf _ _ _ w Hr) as Hwf.
  destruct (CreatePipeline_supported gstreamer_send_create_pipeline codec ts src w Hc)
    as (frag & _ & Heq).
  simpl in Heq. rewrite Heq. eexists. split; [reflexivity|]. simpl.
  split; [done|]. split; [done|]. split; [done|]. split.
  - intros Hlt. rewrite C_int_small by lia. split.
    + by apply new_events_app.
    + apply lookup_insert_eq.
  - intros Hge. eexists. split; [by apply new_events_app|].
    split; [by apply C_int_wraps|].
    rewrite C_int_wraps by done. rewrite lookup_insert_ne by lia.
    apply eq_None_not_Some. destruct Hwf as [Hdom _]. rewrite Hdom. lia.
Qed.

(** *** The callback *)

(** X3: whatever the track writes return, one call of the callback leaves
    the registry as it is, creates no native pipeline, neither releases nor
    changes any C block but its own buffer, and writes only to tracks of the
    session registered under the id, to a prefix of them in their order; for
    an id that is not registered it writes to none. *)
Theorem callback_frame buffer bufferLen duration pipelineID w :
  let r := goHandlePipelineBuffer buffer bufferLen duration pipelineID w in
  pipelines (snd r) = pipelines w /\
  created (new_events w (snd r)) = [] /\
  (forall b, b <> buffer ->
     frees b (new_events w (snd r)) = 0%nat /\ cmem (snd r) !! b = cmem w !! b) /\
  match pipelines w !! pipelineID with
  | Some p => map fst (all_writes (new_events w (snd r))) `prefix_of` tracks p
  | None => all_writes (new_events w (snd r)) = []
  end.
Proof.
  intros r.
  destruct (goHandlePipelineBuffer_events buffer bufferLen duration pipelineID w)
    as (evs & Htr & Hc & Hf & Hm & Hw).
  fold r in Htr, Hm. rewrite (new_events_app w (snd r) evs Htr).
  split; [apply goHandlePipelineBuffer_pipelines|]. split; [done|].
  split; [|done]. intros b Hb. split; [by apply Hf|by apply Hm].
Qed.

(** X4: two buffers in a row for one registered session, all writes
    succeeding: both calls return, the second finds its chunk untouched by
    the release of the first, and every track gets the sample of the first
    buffer before the sample of the second. *)
Theorem buffers_delivered_in_order b1 b2 chunk1 chunk2 d1 d2 pipelineID w p :
  pipelines w !! pipelineID = Some p ->
  b1 <> b2 ->
  cmem w !! b1 = Some chunk1 ->
  cmem w !! b2 = Some chunk2 ->
  let smp1 := {| Data := chunk1; Samples := samples_for (codecName p) d1 |} in
  let smp2 := {| Data := chunk2; Samples := samples_for (codecName p) d2 |} in
  writes_succeed WriteSample (trace w) smp1 (tracks p) ->
  writes_succeed WriteSample (trace w ++ wrote smp1 (tracks p) ++ [EvFree b1]) smp2 (tracks p) ->
  let r1 := goHandlePipelineBuffer b1 (Z.of_nat (length chunk1)) d1 pipelineID w in
  let r2 := goHandlePipelineBuffer b2 (Z.of_nat (length chunk2)) d2 pipelineID (snd r1) in
  fst r1 = Return tt /\ fst r2 = Return tt /\
  all_writes (new_events w (snd r2)) =
    map (fun t => (t, smp1)) (tracks p) ++ map (fun t => (t, smp2)) (tracks p) /\
  (NoDup (tracks p) -> forall t, t ∈ tracks p ->
     writes_to t (new_events w (snd r2)) = [smp1; smp2]).
Proof.
  intros Hp Hne Hm1 Hm2 smp1 smp2 Hok1 Hok2 r1 r2. subst r2 r1.
  pose proof (payload_chunk b1 chunk1 w Hm1) as Hpay1.
  rewrite (goHandlePipelineBuffer_ok _ _ _ _ _ p Hp (Nat2Z.is_nonneg _));
    rewrite Hpay1; [|exact Hok1].
  fold smp1. cbn [snd].
  match goal with |- context [goHandlePipelineBuffer _ _ _ _ ?w0] => set (w1 := w0) end.
  assert (Hp1 : pipelines w1 !! pipelineID = Some p) by exact Hp.
  assert (Hpay2 : payload b2 (Z.of_nat (length chunk2)) w1 = chunk2).
  { apply payload_chunk. simpl. by rewrite lookup_delete_ne. }
  rewrite (goHandlePipelineBuffer_ok _ _ _ _ _ p Hp1 (Nat2Z.is_nonneg _));
    rewrite Hpay2; [|exact Hok2].
  fold smp2. simpl.
  rewrite (new_events_app w _
             ((wrote smp1 (tracks p) ++ [EvFree b1]) ++ wrote smp2 (tracks p) ++ [EvFree b2]))
    by (simpl; by rewrite <- !app_assoc).
  split; [done|]. split; [done|]. split.
  - rewrite !all_writes_app, !all_writes_wrote. simpl. by rewrite !app_nil_r.
  - intros Hnd t Ht.
    rewrite !writes_to_app, !(writes_to_wrote_once t _ (tracks p)) by done. done.
Qed.

(** *** The registry and the native pipelines *)

Lemma reachable_created w :
  reachable w ->
  length (created (trace w)) = size (pipelines w) /\
  (forall k p, pipelines w !! k = Some p ->
     created (trace w) !! Z.to_nat k = Some (Pipeline_ p)).
Proof.
  intros Hr.
  refine (rtc_ind_r (fun w => registry_wf (pipelines w) ->
            length (created (trace w)) = size (pipelines w) /\
            (forall k p, pipelines w !! k = Some p ->
               created (trace w) !! Z.to_nat k = Some (Pipeline_ p)))
            init _ _ w Hr (reachable_registry_wf _ _ _ w Hr)).
  - intros _. split; [done|]. intros k p. unfold init; simpl. by rewrite lookup_empty.
  - clear w Hr. intros w w' Hr Hstep IH Hwf'.
    assert (Hwf : registry_wf (pipelines w))
      by (by apply (reachable_registry_wf gstreamer_send_create_pipeline WriteSample
                      uint32_unrepresentable w)).
    destruct (IH Hwf) as [Hlen Hlk].
    inversion Hstep as [c ts src w0|p0 w0|p0 w0|b l d i w0|cm w0]; subst; clear Hstep.
    + destruct (supported c) eqn:Hc.
      * destruct (CreatePipeline_supported gstreamer_send_create_pipeline c ts src w Hc)
          as (frag & _ & Heq).
        simpl in Heq. rewrite Heq. simpl. rewrite created_app. simpl.
        pose proof (registry_wf_fresh _ Hwf) as Hfresh. split.
        -- rewrite length_app, map_size_insert_None by done. simpl. lia.
        -- intros k q. destruct (decide (Z.of_nat (size (pipelines w)) = k)) as [<-|Hk].
           ++ rewrite lookup_insert_eq. intros [= <-]. simpl.
              rewrite Nat2Z.id, lookup_app_r by lia. by rewrite Hlen, Nat.sub_diag.
           ++ rewrite lookup_insert_ne by done. intros Hq.
              rewrite lookup_app_l; [by apply Hlk|].
              destruct Hwf as [Hdom _]. assert (is_Some (pipelines w !! k)) as Hs by eauto.
              apply Hdom in Hs. lia.
      * rewrite CreatePipeline_unsupported by done. simpl. done.
    + simpl. rewrite created_app. simpl. rewrite app_nil_r. done.
    + simpl. rewrite created_app. simpl. rewrite app_nil_r. done.
    + destruct (goHandlePipelineBuffer_events b l d i w) as (evs & Htr & Hc & _).
      rewrite Htr, created_app, Hc, app_nil_r, goHandlePipelineBuffer_pipelines. done.
    + simpl. done.
Qed.

(** X5: in every world the package can reach, the registry holds as many
    sessions as native pipelines were created, and the session under id [k]
    holds the [k]-th of them: no session without its native pipeline, no
    native pipeline without its session. *)
Theorem sessions_match_native_pipelines w :
  reachable w ->
  length (created (trace w)) = size (pipelines w) /\
  (forall k p, pipelines w !! k = Some p ->
     0 <= k /\ created (trace w) !! Z.to_nat k = Some (Pipeline_ p)) /\
  (forall n h, created (trace w) !! n = Some h ->
     exists p, pipelines w !! Z.of_nat n = Some p /\ Pipeline_ p = h).
Proof.
  intros Hr. destruct (reachable_created w Hr) as [Hlen Hlk].
  pose proof (reachable_registry_wf _ _ _ w Hr) as [Hdom Hids].
  split; [done|]. split.
  - intros k p Hk. split; [|by apply Hlk].
    assert (is_Some (pipelines w !! k)) as Hs by eauto. apply Hdom in Hs. lia.
  - intros n h Hn. apply lookup_lt_Some in Hn as Hlt. rewrite Hlen in Hlt.
    assert (is_Some (pipelines w !! Z.of_nat n)) as [p Hp] by (apply Hdom; lia).
    exists p. split; [done|]. apply Hlk in Hp. rewrite Nat2Z.id in Hp. congruence.
Qed.

(** *** The sample count on whole milliseconds *)

Lemma exact_or_one_less_all clockRate :
  clockRate = audioClockRate \/ clockRate = videoClockRate ->
  forallb (exact_or_one_less clockRate) (seqZ 0 2148) = true.
Proof. intros [->| ->]; by vm_compute. Qed.

(** X6: for every duration of a whole number of milliseconds that a
    [C.int] of nanoseconds can hold (0 to 2147 ms), and for both clock
    rates, the sample count is the exact number of ticks or one tick less,
    never more; the conversion to [uint32] is always defined there. *)
Theorem whole_millisecond_sample_count codecName ms :
  0 <= ms <= 2147 ->
  let ticks := if String.eqb codecName webrtc.Opus then 48 * ms else 90 * ms in
  samples_for codecName (ms * 1000000) = ticks \/
  samples_for codecName (ms * 1000000) = ticks - 1.
Proof.
  intros Hms ticks. rewrite samples_for_eq.
  set (rate := if String.eqb codecName webrtc.Opus then audioClockRate else videoClockRate).
  assert (Hrate : rate = audioClockRate \/ rate = videoClockRate)
    by (subst rate; destruct (String.eqb codecName webrtc.Opus); auto).
  assert (Hticks : ticks = rate / 1000 * ms)
    by (subst ticks rate; by destruct (String.eqb codecName webrtc.Opus)).
  pose proof (exact_or_one_less_all rate Hrate) as Hall.
  rewrite forallb_forall in Hall.
  assert (Hin : In ms (seqZ 0 2148)) by (apply list_elem_of_In, elem_of_seqZ; lia).
  specialize (Hall ms Hin). unfold exact_or_one_less, sample_float in Hall.
  destruct (float32_trunc _) as [z|] eqn:Hz; [|done].
  apply andb_prop in Hall as [Hrange Hval]. apply andb_prop in Hrange as [Hlo Hhi].
  apply Z.leb_le in Hlo. apply Z.ltb_lt in Hhi.
  rewrite (uint32_of_float32_in_range _ _ z Hz) by lia.
  apply orb_prop in Hval as [Hv|Hv]; apply Z.eqb_eq in Hv; rewrite Hticks; [by left|by right].
Qed.

End BridgeMore.

(** * The authentication middleware: facts *)

Section MiddlewareFacts.

Import auth.

Variable ToUpper : string -> string.
Variable ReadFile : string -> option (list Byte.byte).
Variable ParseRSAPublicKeyFromPEM : list Byte.byte -> option Z * option string.
Variable ParseECPublicKeyFromPEM : list Byte.byte -> option Z * option string.
Variable ParseRSAPrivateKeyFromPEM : list Byte.byte -> option Z * option string.
Variable ParseECPrivateKeyFromPEM : list Byte.byte -> option Z * option string.
Variable RegisterValidation : string -> option string.

Lemma files_read_app cs1 cs2 : files_read (cs1 ++ cs2) = files_read cs1 ++ files_read cs2.
Proof.
  induction cs1 as [|c cs1 IH]; simpl; [done|].
  destruct c; simpl; by rewrite ?IH.
Qed.

Lemma HS512_does_not_pass : "HS512" ∉ passes_switch.
Proof. apply (proj1 (bool_decide_eq_false _)). reflexivity. Qed.

Lemma signing_switch_eq alg m cs :
  signing_switch alg m cs =
    if bool_decide (alg ∈ passes_switch) then (Next tt, m, cs)
    else if bool_decide (alg = "HS512") then (Done (Some ErrHMACAlg), m, cs)
    else (Done (Some ErrInvalidAlg), m, cs).
Proof.
  unfold signing_switch.
  repeat match goal with
  | |- context [String.eqb alg ?x] =>
      destruct (String.eqb_spec alg x) as [->|?]; [reflexivity|]
  end.
  rewrite bool_decide_eq_false_2.
  - by rewrite bool_decide_eq_false_2.
  - unfold passes_switch, asymmetric. simpl. rewrite !elem_of_cons, elem_of_nil. tauto.
Qed.

Lemma parsePublicKey_eq m k :
  parsePublicKey ToUpper ParseRSAPublicKeyFromPEM ParseECPublicKeyFromPEM m k =
    if bool_decide (ToUpper (SigningAlgorithm m) = "RS512") then
      (KeyPtr (ParseRSAPublicKeyFromPEM k).1, option_map ErrExternal (ParseRSAPublicKeyFromPEM k).2)
    else if bool_decide (ToUpper (SigningAlgorithm m) = "ES512") then
      (KeyPtr (ParseECPublicKeyFromPEM k).1, option_map ErrExternal (ParseECPublicKeyFromPEM k).2)
    else (NilKey, Some ErrInvalidAlg).
Proof.
  unfold parsePublicKey. set (alg := ToUpper (SigningAlgorithm m)).
  destruct (ParseRSAPublicKeyFromPEM k) as [p1 e1], (ParseECPublicKeyFromPEM k) as [p2 e2].
  repeat match goal with
  | |- context [String.eqb alg ?x] =>
      destruct (String.eqb_spec alg x) as [->|?]; [reflexivity|]
  end.
  by rewrite !bool_decide_eq_false_2.
Qed.

Lemma parsePrivateKey_eq m k :
  parsePrivateKey ToUpper ParseRSAPrivateKeyFromPEM ParseECPrivateKeyFromPEM m k =
    if bool_decide (ToUpper (SigningAlgorithm m) = "RS512") then
      (KeyPtr (ParseRSAPrivateKeyFromPEM k).1, option_map ErrExternal (ParseRSAPrivateKeyFromPEM k).2)
    else if bool_decide (ToUpper (SigningAlgorithm m) = "ES512") then
      (KeyPtr (ParseECPrivateKeyFromPEM k).1, option_map ErrExternal (ParseECPrivateKeyFromPEM k).2)
    else (NilKey, Some ErrInvalidAlg).
Proof.
  unfold parsePrivateKey. set (alg := ToUpper (SigningAlgorithm m)).
  destruct (ParseRSAPrivateKeyFromPEM k) as [p1 e1], (ParseECPrivateKeyFromPEM k) as [p2 e2].
  repeat match goal with
  | |- context [String.eqb alg ?x] =>
      destruct (String.eqb_spec alg x) as [->|?]; [reflexivity|]
  end.
  by rewrite !bool_decide_eq_false_2.
Qed.

Local Abbreviation parsePublicKey :=
  (parsePublicKey ToUpper ParseRSAPublicKeyFromPEM ParseECPublicKeyFromPEM).
Local Abbreviation parsePrivateKey :=
  (parsePrivateKey ToUpper ParseRSAPrivateKeyFromPEM ParseECPrivateKeyFromPEM).

(** A key that one of the two parsers returned without error: the
    algorithm is RS512 or ES512, and the key is not the nil interface. *)
Lemma parsePublicKey_ok m k key :
  parsePublicKey m k = (key, None) ->
  is_nil key = false /\
  (ToUpper (SigningAlgorithm m) = "RS512" \/ ToUpper (SigningAlgorithm m) = "ES512").
Proof.
  rewrite parsePublicKey_eq. repeat case_bool_decide; intros [= <- _]; auto.
Qed.

Lemma parsePrivateKey_ok m k key :
  parsePrivateKey m k = (key, None) ->
  is_nil key = false /\
  (ToUpper (SigningAlgorithm m) = "RS512" \/ ToUpper (SigningAlgorithm m) = "ES512").
Proof.
  rewrite parsePrivateKey_eq. repeat case_bool_decide; intros [= <- _]; auto.
Qed.

Local Abbreviation MiddlewareInit :=
  (MiddlewareInit ToUpper ReadFile ParseRSAPublicKeyFromPEM ParseECPublicKeyFromPEM
     ParseRSAPrivateKeyFromPEM ParseECPrivateKeyFromPEM RegisterValidation).

Lemma MiddlewareInit_eq m cs :
  MiddlewareInit m cs =
    (signing_switch (ToUpper (SigningAlgorithm m)) ;;
     load_PubKey ToUpper ReadFile ParseRSAPublicKeyFromPEM ParseECPublicKeyFromPEM ;;
     m ← self ;
     (if is_nil (PubKey m) then done (Some ErrMissingPubKey) else mret tt) ;;
     load_PrivKey ToUpper ReadFile ParseRSAPrivateKeyFromPEM ParseECPrivateKeyFromPEM ;;
     m ← self ;
     (if is_nil (PrivKey m) then done (Some ErrMissingPrivKey) else mret tt) ;;
     load_AuthorisedKeys ;;
     update (set_Validator (Some [])) ;;
     register RegisterValidation "uniqueIdentity" ;;
     register RegisterValidation "existsIdentity" ;;
     register RegisterValidation "publicKey" ;;
     done None) m cs.
Proof. reflexivity. Qed.

(** Runs a method on a middleware given field by field, one case for
    every way through it. *)
Local Ltac run_init :=
  rewrite MiddlewareInit_eq;
  unfold load_PubKey, load_PrivKey, load_AuthorisedKeys, register,
    mbind, Method_bind, mret, Method_ret, self, update, call, done, panics;
  rewrite signing_switch_eq;
  simpl;
  repeat (case_match; simpl in *; simplify_eq).

Local Ltac split_andb :=
  repeat match goal with
  | H : _ && _ = true |- _ => apply andb_true_iff in H as [? ?]
  end.

Local Ltac use_parsers :=
  repeat match goal with
  | H : parsePublicKey _ _ = (_, None) |- _ => apply parsePublicKey_ok in H as [? ?]
  | H : parsePrivateKey _ _ = (_, None) |- _ => apply parsePrivateKey_ok in H as [? ?]
  | H : bool_decide _ = true |- _ => apply bool_decide_eq_true_1 in H
  | H : bool_decide _ = false |- _ => apply bool_decide_eq_false_1 in H
  end.

(** X7: [MiddlewareInit] returns [ErrHMACAlg] exactly for HS512 and
    [ErrInvalidAlg] exactly for a name that is neither HS512 nor one of
    RS256, RS384, RS512, ES256, ES384, ES512, HS256, HS384 (all after
    upper-casing); in both cases nothing is read and the middleware is as
    before.  HS256 and HS384, empty cases of the [switch], are not turned
    away. *)
Theorem MiddlewareInit_algorithm_check m cs :
  let alg := ToUpper (SigningAlgorithm m) in
  (((MiddlewareInit m cs).1.1 = Done (Some ErrHMACAlg)) <-> alg = "HS512") /\
  (((MiddlewareInit m cs).1.1 = Done (Some ErrInvalidAlg)) <->
     (alg ∉ passes_switch) /\ alg <> "HS512") /\
  ((alg ∉ passes_switch) ->
     (MiddlewareInit m cs).1.2 = m /\ (MiddlewareInit m cs).2 = cs).
Proof.
  intros alg. subst alg. destruct m. run_init.
  all: use_parsers; simpl in *.
  all: repeat split; try intros [? ?]; try intros ?; simplify_eq; try done.
  all: exfalso;
       match goal with H : ?a = "HS512", Hin : ?a ∈ passes_switch |- _ =>
         rewrite H in Hin; exact (HS512_does_not_pass Hin) end.
Qed.

(** X8: when [MiddlewareInit] returns [nil], both keys are there (not the
    nil interface), there is a key store, the validator has the three tags
    in the order of registration, and the upper-cased algorithm is one the
    [switch] lets pass; keys and key store that were set before the call are
    the same after it, and so is the configuration. *)
Theorem MiddlewareInit_success m cs m' cs' :
  MiddlewareInit m cs = (Done None, m', cs') ->
  is_nil (PubKey m') = false /\ is_nil (PrivKey m') = false /\
  (exists store, AuthorisedKeys m' = Some store) /\
  Validator m' = Some ["uniqueIdentity"; "existsIdentity"; "publicKey"] /\
  ToUpper (SigningAlgorithm m) ∈ passes_switch /\
  (is_nil (PubKey m) = false -> PubKey m' = PubKey m) /\
  (is_nil (PrivKey m) = false -> PrivKey m' = PrivKey m) /\
  (forall store, AuthorisedKeys m = Some store -> AuthorisedKeys m' = Some store) /\
  SigningAlgorithm m' = SigningAlgorithm m /\
  PubKeyPath m' = PubKeyPath m /\ PrivKeyPath m' = PrivKeyPath m /\
  Interface m' = Interface m /\ InterfaceConfig m' = InterfaceConfig m /\
  CookieName m' = CookieName m /\ AuthnTimeout m' = AuthnTimeout m /\
  SessionTimeout m' = SessionTimeout m /\ Leeway m' = Leeway m.
Proof.
  destruct m. run_init.
  all: intros; simplify_eq; simpl.
  all: use_parsers.
  all: repeat split; eauto; try congruence.
  all: intros Hn; split_andb; congruence.
Qed.

(** X9: a key that is not set beforehand can only come from its file
    through the one parser case that returns: when [MiddlewareInit] returns
    [nil] and the public or the private key was the nil interface before,
    the upper-cased algorithm is RS512 or ES512.  With RS256, RS384, ES256
    or ES384 and a key to load, initialisation never succeeds. *)
Theorem MiddlewareInit_loads_keys_only_for_512 m cs m' cs' :
  is_nil (PubKey m) = true \/ is_nil (PrivKey m) = true ->
  MiddlewareInit m cs = (Done None, m', cs') ->
  ToUpper (SigningAlgorithm m) = "RS512" \/ ToUpper (SigningAlgorithm m) = "ES512".
Proof.
  intros Hnil. destruct m. revert Hnil. run_init.
  all: intros; simplify_eq; simpl in *.
  all: use_parsers; simpl in *.
  all: try done.
  all: split_andb; destruct Hnil; congruence.
Qed.

(** X10: with both keys set beforehand [MiddlewareInit] reads no file,
    whatever paths are configured and however the call ends, and leaves both
    keys as they are. *)
Theorem MiddlewareInit_preset_keys_read_nothing m cs :
  is_nil (PubKey m) = false ->
  is_nil (PrivKey m) = false ->
  files_read (MiddlewareInit m cs).2 = files_read cs /\
  PubKey (MiddlewareInit m cs).1.2 = PubKey m /\
  PrivKey (MiddlewareInit m cs).1.2 = PrivKey m.
Proof.
  intros Hpub Hpriv. destruct m. simpl in Hpub, Hpriv.
  run_init.
  all: try done.
  all: split_andb; try congruence.
  all: cbn [fst snd]; rewrite ?files_read_app; simpl; rewrite ?app_nil_r; done.
Qed.

(** X11: once the algorithm and the keys are in order and no key store is
    set, [MiddlewareInit] takes the store from [keysInterfaces]: for a name
    other than ["mysql"] that is the nil interface, and calling [New] on it
    panics, before any validator is made; for ["mysql"] the store is set and
    [New] gets the configuration. *)
Theorem MiddlewareInit_key_store m cs :
  ToUpper (SigningAlgorithm m) ∈ passes_switch ->
  is_nil (PubKey m) = false ->
  is_nil (PrivKey m) = false ->
  AuthorisedKeys m = None ->
  let r := MiddlewareInit m cs in
  (Interface m <> "mysql" ->
     r.1.1 = Panics NilInterfaceCall /\ r.2 = cs /\
     AuthorisedKeys r.1.2 = None /\ Validator r.1.2 = Validator m) /\
  (Interface m = "mysql" ->
     (exists e, r.1.1 = Done e) /\
     AuthorisedKeys r.1.2 = Some MysqlKeyStore /\
     exists cs1, r.2 = cs ++ CallNew MysqlKeyStore (InterfaceConfig m) :: cs1).
Proof.
  intros Halg Hpub Hpriv Hstore r. subst r. destruct m. simpl in *. subst.
  assert (Hmy : forall i : string, i <> "mysql" -> keysInterfaces !! i = None)
    by (intros i Hi; unfold keysInterfaces; by rewrite lookup_singleton_ne).
  assert (Hmy' : keysInterfaces !! "mysql" = Some MysqlKeyStore) by reflexivity.
  split; intros Hi; [rewrite MiddlewareInit_eq|subst; rewrite MiddlewareInit_eq];
    unfold load_PubKey, load_PrivKey, load_AuthorisedKeys, register,
      mbind, Method_bind, mret, Method_ret, self, update, call, done, panics;
    rewrite signing_switch_eq, bool_decide_eq_true_2 by done; simpl;
    repeat (progress (rewrite ?Hpub, ?Hpriv, ?andb_false_r; simpl)).
  - by rewrite (Hmy _ Hi).
  - rewrite Hmy'. simpl.
    repeat (case_match; simpl in *; simplify_eq).
    all: repeat split; eauto.
    all: rewrite <- ?app_assoc; simpl; eauto.
Qed.

End MiddlewareFacts.

Section AuthnFacts.

Import auth.

Variable Token : Type.
Variable Issuer : Type.
Variable Time : Type.
Variable time_Unix : Z -> Time.
Variable Time_Add : Time -> Z -> Time.
Variable Time_Before : Time -> Time -> bool.
Variable ParseJWT : string -> option Token.
Variable issuer : Token -> Issuer.
Variable Get : KeysStore -> Issuer -> KeyInstance * option error.
Variable Validate :
  Token -> string -> string -> Z -> ((string -> ClaimValue) -> Ran (option error)) ->
  Ran (option error).

Lemma KeyInstance_eqb_eq a b : KeyInstance_eqb a b = true <-> a = b.
Proof.
  destruct a as [k1 l1], b as [k2 l2]. unfold KeyInstance_eqb. simpl.
  rewrite andb_true_iff, String.eqb_eq, Z.eqb_eq. split.
  - by intros [-> ->].
  - by intros [= -> ->].
Qed.

Local Abbreviation authn_check := (authn_check Time time_Unix Time_Add Time_Before).
Local Abbreviation ValidateAuthnRequest :=
  (ValidateAuthnRequest Token Issuer Time time_Unix Time_Add Time_Before
     ParseJWT issuer Get Validate).

(** X12: [ValidateAuthnRequest] changes nothing in the middleware.  It
    returns a key exactly when the token parses, the store returns for its
    issuer a key other than the zero [KeyInstance] and no error, and the
    token validates against that key; it is then that key.  It returns an
    error exactly when the token does not parse ([ErrInvalidToken]) or the
    store returns an error with a key other than the zero one.  When the
    store returns the zero [KeyInstance], its error, if any, is dropped:
    the result is [nil, nil], as for a token that does not validate. *)
Theorem ValidateAuthnRequest_result t m cs :
  let r := ValidateAuthnRequest t m cs in
  r.1.2 = m /\ r.2 = cs /\
  (forall key,
     r.1.1 = Done (Some key, None) <->
     exists token store,
       ParseJWT t = Some token /\ AuthorisedKeys m = Some store /\
       Get store (issuer token) = (key, None) /\ key <> zero_KeyInstance /\
       Validate token (Key key) (SigningAlgorithm m) (Leeway m) (authn_check m) = Ret None) /\
  (forall e,
     r.1.1 = Done (None, Some e) <->
     (ParseJWT t = None /\ e = ErrInvalidToken) \/
     exists token store key,
       ParseJWT t = Some token /\ AuthorisedKeys m = Some store /\
       Get store (issuer token) = (key, Some e) /\ key <> zero_KeyInstance) /\
  (forall token store err,
     ParseJWT t = Some token -> AuthorisedKeys m = Some store ->
     Get store (issuer token) = (zero_KeyInstance, err) ->
     r.1.1 = Done (None, None)).
Proof.
  intros r. subst r.
  unfold auth.ValidateAuthnRequest, mbind, Method_bind, self, done, panics.
  destruct (ParseJWT t) as [token|] eqn:Hparse.
  2: { simpl. split; [done|]. split; [done|]. split; [|split].
       - intros key. split; [done|]. by intros (? & ? & ? & _).
       - intros e. split.
         + intros [= <-]. by left.
         + intros [[_ ->]|(? & ? & ? & ? & _)]; done.
       - by intros. }
  destruct (AuthorisedKeys m) as [store|] eqn:Hstore.
  2: { simpl. split; [done|]. split; [done|]. split; [|split].
       - intros key. split; [done|]. by intros (? & ? & _ & ? & _).
       - intros e. split; [done|]. intros [[? _]|(? & ? & ? & _ & ? & _)]; done.
       - by intros. }
  destruct (Get store (issuer token)) as [key err] eqn:Hget.
  destruct (KeyInstance_eqb key zero_KeyInstance) eqn:Hzero.
  { apply KeyInstance_eqb_eq in Hzero as ->. simpl.
    split; [done|]. split; [done|]. split; [|split].
    - intros key. split; [done|]. intros (tk & st & [= <-] & [= <-] & Hg & Hnz & _).
      rewrite Hget in Hg. by injection Hg as <- _.
    - intros e. split; [done|].
      intros [[? _]|(tk & st & k & [= <-] & [= <-] & Hg & Hnz)]; [done|].
      rewrite Hget in Hg. by injection Hg as <- _.
    - done. }
  assert (Hnz : key <> zero_KeyInstance).
  { intros ->. rewrite (proj2 (KeyInstance_eqb_eq _ _) eq_refl) in Hzero. done. }
  destruct err as [e0|].
  { simpl. split; [done|]. split; [done|]. split; [|split].
    - intros k. split; [done|]. intros (tk & st & [= <-] & [= <-] & Hg & _).
      rewrite Hget in Hg. done.
    - intros e. split.
      + intros [= <-]. right. by exists token, store, key.
      + intros [[? _]|(tk & st & k & [= <-] & [= <-] & Hg & _)]; [done|].
        rewrite Hget in Hg. by injection Hg as _ <-.
    - intros tk st err [= <-] [= <-] Hg. rewrite Hget in Hg. by injection Hg as -> _. }
  destruct (Validate token (Key key) (SigningAlgorithm m) (Leeway m) (authn_check m))
    as [[e1|]|p] eqn:Hval; simpl.
  all: split; [done|]; split; [done|]; split; [|split].
  all: try (intros tk st err [= <-] [= <-] Hg; rewrite Hget in Hg; by injection Hg as -> _).
  all: try (intros e; split; [done|];
            intros [[? _]|(tk & st & k & [= <-] & [= <-] & Hg & _)]; [done|];
            rewrite Hget in Hg; done).
  all: intros k; split.
  all: try done.
  all: try (intros (tk & st & [= <-] & [= <-] & Hg & _ & Hv);
            rewrite Hget in Hg; injection Hg as <-; rewrite Hval in Hv; done).
  intros [= <-]. by exists token, store.
Qed.

End AuthnFacts.

(** * The keystroke command and the console component: facts *)

Lemma list_ascii_of_string_app s1 s2 :
  list_ascii_of_string (s1 +:+ s2) = list_ascii_of_string s1 ++ list_ascii_of_string s2.
Proof. induction s1 as [|c s1 IH]; simpl; [done|]. by rewrite IH. Qed.

Lemma hex_digit_in_table n :
  (n < 16)%nat -> hid.hex_digit n ∈ list_ascii_of_string hid.hextable.
Proof.
  intros Hn. apply list_elem_of_In.
  do 16 (destruct n as [|n]; [vm_compute; tauto|]). lia.
Qed.

Lemma x_is_no_hex_digit : "x"%char ∉ list_ascii_of_string hid.hextable.
Proof. apply (proj1 (bool_decide_eq_false _)). reflexivity. Qed.

Lemma hex_EncodeToString_digits src :
  Forall (fun c => c ∈ list_ascii_of_string hid.hextable)
    (list_ascii_of_string (hid.hex_EncodeToString src)).
Proof.
  induction src as [|b src IH]; [constructor|].
  cbn [hid.hex_EncodeToString list_ascii_of_string].
  constructor; [|constructor; [|exact IH]]; apply hex_digit_in_table.
  - apply Nat.Div0.div_lt_upper_bound. pose proof (Byte.to_nat_bounded b). lia.
  - apply Nat.mod_upper_bound. lia.
Qed.

Lemma hex_EncodeToString_length src :
  String.length (hid.hex_EncodeToString src) = (2 * length src)%nat.
Proof.
  induction src as [|b src IH]; [done|].
  cbn [hid.hex_EncodeToString String.length]. rewrite IH. simpl. lia.
Qed.

(** Where the second character of [old] occurs nowhere, nothing is
    replaced. *)
Lemma prefix_needs_second c1 c2 c s :
  Forall (fun c => c <> c2) (list_ascii_of_string s) ->
  String.prefix (String c1 (String c2 EmptyString)) (String c s) = false.
Proof.
  intros Hall. simpl. destruct (Ascii.ascii_dec c1 c) as [_|_]; [|done].
  destruct s as [|c' s']; [done|]. simpl in Hall. apply Forall_cons in Hall as [Hc _].
  simpl. destruct (Ascii.ascii_dec c2 c') as [Heq|_]; [|done]. by subst.
Qed.

Lemma Replace_absent s c1 c2 new :
  Forall (fun c => c <> c2) (list_ascii_of_string s) ->
  hid.strings_Replace s (String c1 (String c2 EmptyString)) new = s.
Proof.
  unfold hid.strings_Replace. induction s as [|c s IH]; [done|].
  intros Hall. simpl in Hall. apply Forall_cons in Hall as [_ Hall].
  cbn [hid.Replace_from]. rewrite prefix_needs_second by done. by rewrite IH.
Qed.

(** X13: the command for a report carries the plain lower-case hex digits
    of its bytes, two for each byte, between the single quotes: the
    replacement of [0x] by a backslash and [x] never finds anything to
    replace, since [x] is no hex digit, and so the command holds no
    backslash at all. *)
Theorem command_carries_plain_hex bytes :
  hid.strings_Replace (hid.hex_EncodeToString bytes) "0x" "\x" = hid.hex_EncodeToString bytes /\
  hid.command bytes = hid.Sprintf_command (hid.hex_EncodeToString bytes) /\
  String.length (hid.hex_EncodeToString bytes) = (2 * length bytes)%nat /\
  Forall (fun c => c ∈ list_ascii_of_string "0123456789abcdef")
    (list_ascii_of_string (hid.hex_EncodeToString bytes)) /\
  Forall (fun c => c <> "\"%char) (list_ascii_of_string (hid.command bytes)).
Proof.
  assert (Hrep : hid.strings_Replace (hid.hex_EncodeToString bytes) "0x" "\x" =
                 hid.hex_EncodeToString bytes).
  { apply Replace_absent. eapply Forall_impl; [apply hex_EncodeToString_digits|].
    intros c Hc ->. exact (x_is_no_hex_digit Hc). }
  split; [exact Hrep|]. split; [by unfold hid.command; rewrite Hrep|].
  split; [apply hex_EncodeToString_length|]. split; [apply hex_EncodeToString_digits|].
  unfold hid.command. rewrite Hrep. unfold hid.Sprintf_command.
  rewrite !list_ascii_of_string_app, !Forall_app.
  repeat split; try (vm_compute; repeat constructor; discriminate).
  eapply Forall_impl; [apply hex_EncodeToString_digits|].
  intros c Hc ->. revert Hc. apply (proj1 (bool_decide_eq_false _)). reflexivity.
Qed.

Section ConsoleFacts.

Import Console.

Variable JSON_stringify : Message -> string.

Local Abbreviation run := (run JSON_stringify).
Local Abbreviation handleKeys := (handleKeys JSON_stringify).

Lemma run_from st inputs :
  connected (run inputs st).1 = connected st /\
  length (run inputs st).2 = keydowns inputs /\
  (forall data, sendMessage data ∈ (run inputs st).2 ->
     (ws st = true \/ Open ∈ inputs) /\
     exists e, Keydown e ∈ inputs /\
       includes prohibitedKeys (key e) = false /\
       data = JSON_stringify {| key_ := key e; shift := shiftKey e; ctrl := ctrlKey e;
                                alt := altKey e; meta := metaKey e |}).
Proof.
  revert st. induction inputs as [|i inputs IH]; intros st.
  - simpl. split; [done|]. split; [done|]. intros data Hd. by apply elem_of_nil in Hd.
  - destruct i as [| |e]; simpl.
    + destruct (IH (handleOpen st)) as (Hc & Hl & Hs). split; [done|]. split; [done|].
      intros data Hd. destruct (Hs data Hd) as (_ & e & He & Hok).
      split; [right; left|]. exists e. split; [by right|done].
    + destruct (IH (handleClose st)) as (Hc & Hl & Hs). split; [done|]. split; [done|].
      intros data Hd. destruct (Hs data Hd) as ([Hw|Ho] & e & He & Hok); [done|].
      split; [right; by right|]. exists e. split; [by right|done].
    + destruct (IH st) as (Hc & Hl & Hs).
      destruct (Console.run JSON_stringify inputs st) as [st' effs] eqn:Hrun. simpl in *.
      split; [done|]. split.
      * unfold keydowns in *. simpl. rewrite length_app, <- Hl.
        unfold Console.handleKeys. by repeat case_match.
      * intros data Hd. apply elem_of_app in Hd as [Hd|Hd].
        -- unfold Console.handleKeys in Hd.
           destruct (includes prohibitedKeys (key e)) eqn:Hp.
           { apply list_elem_of_singleton in Hd. discriminate. }
           destruct (ws st) eqn:Hw; simpl in Hd.
           2: { apply list_elem_of_singleton in Hd. discriminate. }
           apply list_elem_of_singleton in Hd. injection Hd as ->.
           split; [by left|]. exists e. split; [by left|done].
        -- destruct (Hs data Hd) as (Hw & e' & He' & Hok).
           split; [destruct Hw; [by left|right; by right]|].
           exists e'. split; [by right|done].
Qed.


End ConsoleFacts.

(** * The further statements on concrete runs *)

(** X1 on a run: an Opus session for track 5, created after a first
    session, then a buffer of 20 ms for it. *)
Lemma create_then_buffer_delivers_witness :
  let w := Examples.session_world webrtc.VP8 in
  let c := CreatePipeline Examples.native_create webrtc.Opus [5%nat] "audiotestsrc" w in
  let smp := {| Data := Examples.chunk;
                Samples := samples_for Examples.unrepresentable webrtc.Opus 20000000 |} in
  reachable Examples.native_create Examples.writes_ok Examples.unrepresentable w /\
  supported webrtc.Opus = true /\
  cmem w !! 100 = Some Examples.chunk /\
  exists p,
    fst c = Return p /\
    let r := goHandlePipelineBuffer Examples.writes_ok Examples.unrepresentable
               100 (Z.of_nat (length Examples.chunk)) 20000000 (id p) (snd c) in
    fst r = Return tt /\
    all_writes (new_events (snd c) (snd r)) = map (fun t => (t, smp)) [5%nat].
Proof.
  intros w c smp.
  split; [apply session_world_reachable|]. split; [reflexivity|].
  split; [by vm_compute|].
  apply (create_then_buffer_delivers Examples.native_create Examples.writes_ok
           Examples.unrepresentable webrtc.Opus [5%nat] "audiotestsrc" 100 Examples.chunk
           20000000 w (session_world_reachable _ _ _) eq_refl).
  - by vm_compute.
  - apply writes_ok_succeed.
Defined.

(** X2 on a run: the second session is started with id 1. *)
Lemma Start_passes_session_id_witness :
  let w := Examples.session_world webrtc.VP8 in
  reachable Examples.native_create Examples.writes_ok Examples.unrepresentable w /\
  supported webrtc.H264 = true /\
  exists p,
    fst (CreatePipeline Examples.native_create webrtc.H264 [] "videotestsrc" w) = Return p /\
    new_events (snd (CreatePipeline Examples.native_create webrtc.H264 [] "videotestsrc" w))
      (snd (Start p (snd (CreatePipeline Examples.native_create webrtc.H264 []
                            "videotestsrc" w)))) =
      [EvStartPipeline (Pipeline_ p) (id p)].
Proof.
  intros w. split; [apply session_world_reachable|]. split; [reflexivity|].
  destruct (Start_passes_session_id Examples.native_create Examples.writes_ok
              Examples.unrepresentable webrtc.H264 [] "videotestsrc" w
              (session_world_reachable _ _ _) eq_refl)
    as (p & Hp & _ & _ & _ & Hsmall & _).
  exists p. split; [exact Hp|]. apply Hsmall. by vm_compute.
Defined.

(** X3 on a run: the callback for id 0 in a world with one session. *)
Lemma callback_frame_witness :
  let w := Examples.session_world webrtc.VP8 in
  let r := goHandlePipelineBuffer Examples.track2_closed Examples.unrepresentable
             100 3 20000000 0 w in
  101 <> 100 /\
  pipelines (snd r) = pipelines w /\
  frees 101 (new_events w (snd r)) = 0%nat.
Proof.
  intros w r. split; [lia|].
  destruct (callback_frame Examples.track2_closed Examples.unrepresentable
              100 3 20000000 0 w) as (Hreg & _ & Hb & _).
  split; [exact Hreg|]. apply (Hb 101). lia.
Defined.

(** X4 on a run: two buffers, of 20 ms and of 10 ms, for the Opus session. *)
Lemma buffers_delivered_in_order_witness :
  let w := MoreExamples.two_buffers in
  let p := {| Pipeline_ := 4096; tracks := [1%nat; 2%nat]; id := 0; codecName := webrtc.Opus |} in
  let r1 := goHandlePipelineBuffer Examples.writes_ok Examples.unrepresentable
              100 3 20000000 0 w in
  let r2 := goHandlePipelineBuffer Examples.writes_ok Examples.unrepresentable
              200 2 10000000 0 (snd r1) in
  pipelines w !! 0 = Some p /\
  100 <> 200 /\
  cmem w !! 100 = Some Examples.chunk /\
  cmem w !! 200 = Some [Byte.x04; Byte.x05] /\
  all_writes (new_events w (snd r2)) =
    map (fun t => (t, {| Data := Examples.chunk; Samples := 960 |})) [1%nat; 2%nat] ++
    map (fun t => (t, {| Data := [Byte.x04; Byte.x05]; Samples := 480 |})) [1%nat; 2%nat].
Proof.
  intros w p r1 r2.
  assert (Hp : pipelines w !! 0 = Some p) by (by vm_compute).
  assert (Hm1 : cmem w !! 100 = Some Examples.chunk) by (by vm_compute).
  assert (Hm2 : cmem w !! 200 = Some [Byte.x04; Byte.x05]) by (by vm_compute).
  split; [exact Hp|]. split; [lia|]. split; [exact Hm1|]. split; [exact Hm2|].
  apply (buffers_delivered_in_order Examples.writes_ok Examples.unrepresentable
           100 200 Examples.chunk [Byte.x04; Byte.x05] 20000000 10000000 0 w p
           Hp ltac:(lia) Hm1 Hm2 (writes_ok_succeed _ _ _) (writes_ok_succeed _ _ _)).
Defined.

(** X5 on a run: one session, one native pipeline. *)
Lemma sessions_match_native_pipelines_witness :
  let w := Examples.session_world webrtc.VP9 in
  reachable Examples.native_create Examples.writes_ok Examples.unrepresentable w /\
  length (created (trace w)) = size (pipelines w).
Proof.
  intros w. split; [apply session_world_reachable|].
  apply (sessions_match_native_pipelines Examples.native_create Examples.writes_ok
           Examples.unrepresentable w (session_world_reachable _ _ _)).
Defined.

(** X6 on a run: 20 ms of Opus. *)
Lemma whole_millisecond_sample_count_witness :
  0 <= 20 <= 2147 /\
  (samples_for Examples.unrepresentable webrtc.Opus (20 * 1000000) = 48 * 20 \/
   samples_for Examples.unrepresentable webrtc.Opus (20 * 1000000) = 48 * 20 - 1).
Proof.
  split; [lia|].
  apply (whole_millisecond_sample_count Examples.unrepresentable webrtc.Opus 20). lia.
Defined.


(** X7 on a run: [hs512] is turned away as HMAC. *)
Lemma MiddlewareInit_algorithm_check_witness :
  AuthExamples.to_upper "hs512" = "HS512" /\
  (AuthExamples.init_run (AuthExamples.with_keys "hs512" "mysql")).1.1 =
    auth.Done (Some auth.ErrHMACAlg).
Proof.
  split; [reflexivity|].
  apply (MiddlewareInit_algorithm_check AuthExamples.to_upper AuthExamples.read_file
           AuthExamples.parse_ok AuthExamples.parse_ok AuthExamples.parse_ok
           AuthExamples.parse_ok AuthExamples.register_ok
           (AuthExamples.with_keys "hs512" "mysql") []).
  reflexivity.
Defined.

(** X8 on a run: with both keys set and [hs256], initialisation succeeds. *)
Lemma MiddlewareInit_success_witness :
  let r := AuthExamples.init_run (AuthExamples.with_keys "hs256" "mysql") in
  r = (auth.Done None, r.1.2, r.2) /\
  auth.Validator r.1.2 = Some ["uniqueIdentity"; "existsIdentity"; "publicKey"] /\
  AuthExamples.to_upper "hs256" ∈ auth.passes_switch.
Proof.
  intros r.
  assert (Hr : r = (auth.Done None, r.1.2, r.2)) by (by vm_compute).
  split; [exact Hr|].
  destruct (MiddlewareInit_success AuthExamples.to_upper AuthExamples.read_file
              AuthExamples.parse_ok AuthExamples.parse_ok AuthExamples.parse_ok
              AuthExamples.parse_ok AuthExamples.register_ok
              (AuthExamples.with_keys "hs256" "mysql") [] r.1.2 r.2 Hr)
    as (_ & _ & _ & Hv & Halg & _).
  split; [exact Hv|exact Halg].
Defined.

(** X9 on a run: keys from files with [es512]. *)
Lemma MiddlewareInit_loads_keys_only_for_512_witness :
  let r := AuthExamples.init_run (AuthExamples.from_files "es512") in
  auth.is_nil (auth.PubKey (AuthExamples.from_files "es512")) = true /\
  r = (auth.Done None, r.1.2, r.2) /\
  (AuthExamples.to_upper "es512" = "RS512" \/ AuthExamples.to_upper "es512" = "ES512").
Proof.
  intros r.
  assert (Hr : r = (auth.Done None, r.1.2, r.2)) by (by vm_compute).
  split; [reflexivity|]. split; [exact Hr|].
  apply (MiddlewareInit_loads_keys_only_for_512 AuthExamples.to_upper AuthExamples.read_file
           AuthExamples.parse_ok AuthExamples.parse_ok AuthExamples.parse_ok
           AuthExamples.parse_ok AuthExamples.register_ok
           (AuthExamples.from_files "es512") [] r.1.2 r.2 (or_introl eq_refl) Hr).
Defined.

(** X10 on a run: keys set by the caller, paths configured all the same. *)
Lemma MiddlewareInit_preset_keys_read_nothing_witness :
  auth.is_nil (auth.PubKey (AuthExamples.with_keys "RS256" "mysql")) = false /\
  auth.is_nil (auth.PrivKey (AuthExamples.with_keys "RS256" "mysql")) = false /\
  auth.files_read (AuthExamples.init_run (AuthExamples.with_keys "RS256" "mysql")).2 = [].
Proof.
  split; [reflexivity|]. split; [reflexivity|].
  apply (MiddlewareInit_preset_keys_read_nothing AuthExamples.to_upper AuthExamples.read_file
           AuthExamples.parse_ok AuthExamples.parse_ok AuthExamples.parse_ok
           AuthExamples.parse_ok AuthExamples.register_ok
           (AuthExamples.with_keys "RS256" "mysql") [] eq_refl eq_refl).
Defined.

(** X11 on a run: the key store [ldap] is not in the map. *)
Lemma MiddlewareInit_key_store_witness :
  AuthExamples.to_upper "RS256" ∈ auth.passes_switch /\
  "ldap" <> "mysql" /\
  (AuthExamples.init_run (AuthExamples.with_keys "RS256" "ldap")).1.1 =
    auth.Panics auth.NilInterfaceCall.
Proof.
  assert (Halg : AuthExamples.to_upper "RS256" ∈ auth.passes_switch)
    by (apply (proj1 (bool_decide_eq_true _)); reflexivity).
  assert (Hne : "ldap" <> "mysql") by discriminate.
  split; [exact Halg|]. split; [exact Hne|].
  destruct (MiddlewareInit_key_store AuthExamples.to_upper AuthExamples.read_file
              AuthExamples.parse_ok AuthExamples.parse_ok AuthExamples.parse_ok
              AuthExamples.parse_ok AuthExamples.register_ok
              (AuthExamples.with_keys "RS256" "ldap") [] Halg eq_refl eq_refl eq_refl)
    as [Hpanic _].
  exact (proj1 (Hpanic Hne)).
Defined.

(** X12 on a run: the store has no key for [bob] and says so; the caller
    gets neither a key nor the error. *)
Lemma ValidateAuthnRequest_result_witness :
  AuthExamples.parse_jwt "bob" = Some "bob" /\
  AuthExamples.store_get auth.MysqlKeyStore "bob" =
    (auth.zero_KeyInstance, Some auth.ErrKeyNotFound) /\
  (AuthExamples.authn_run "bob" AuthExamples.with_store).1.1 = auth.Done (None, None).
Proof.
  split; [reflexivity|]. split; [reflexivity|].
  destruct (ValidateAuthnRequest_result string string Z (fun s => s) Z.add Z.ltb
              AuthExamples.parse_jwt (fun t => t) AuthExamples.store_get
              AuthExamples.validate_ok "bob" AuthExamples.with_store [])
    as (_ & _ & _ & _ & Hdrop).
  exact (Hdrop "bob" auth.MysqlKeyStore (Some auth.ErrKeyNotFound) eq_refl eq_refl eq_refl).
Defined.
